(** * Size-locked JPEG conversion of [generateImage] (src/routes/generate.js)

    The route handler [generateImage] ends with a bounded search: the image
    returned by the model is re-encoded as JPEG at varying width and quality
    until its byte size lands in the 1-3 MB window, and the handler answers
    with the JPEG or with an error.  This file embeds that part of the
    handler (from the PNG -> JPG conversion block to the [catch] clause) and
    proves the properties the specification states about it. *)

From Stdlib Require Import ZArith NArith List String Ascii Bool Lia.
Import ListNotations.
Open Scope string_scope.
Open Scope list_scope.
Open Scope Z_scope.

Set Warnings "-register-all".

(** ** Data *)

(** A Node [Buffer]: a byte sequence; [.length] is its number of bytes. *)
Definition Buffer : Type := list Byte.byte.

Definition buffer_length (b : Buffer) : Z := Z.of_nat (List.length b).

(** JSON values as the handler builds them.  [JCenti n] is the number whose
    two-decimal text is n/100 (the result of [parseFloat] on a [toFixed(2)]
    string); [JBase64 b] is the base64 text of the bytes [b]
    ([Buffer.toString("base64")]), kept as the bytes it renders. *)
Inductive JValue : Type :=
| JNull
| JBool (b : bool)
| JNum (n : Z)
| JCenti (n : Z)
| JStr (s : string)
| JBase64 (b : Buffer)
| JObj (fields : list (string * JValue)).

(** Property lookup on an object literal. *)
Fixpoint jfields_get (k : string) (fs : list (string * JValue)) : option JValue :=
  match fs with
  | [] => None
  | (k', v) :: fs' => if String.eqb k k' then Some v else jfields_get k fs'
  end.

Definition jget (k : string) (v : JValue) : option JValue :=
  match v with
  | JObj fs => jfields_get k fs
  | _ => None
  end.

(** What [res.status(s).json(body)] sends; [res.json(body)] has status 200. *)
Record Response : Type := mkResponse { status : Z; body : JValue }.

(** The object passed to [console.error] when the size lock fails. *)
Record SizeLockReport : Type := mkSizeLockReport {
  sizeMB : Z;        (* hundredths of a MB: the digits of toFixed(2) *)
  rep_width : Z;
  rep_quality : Z;
  minSizeMB : Z;
  maxSizeMB : Z
}.

(** The values computed earlier in the handler that the success response
    repeats in [debugInfo]. *)
Record RequestContext : Type := mkRequestContext {
  isPalluSpreadPose : bool;
  isBlouseZoomPose : bool;
  hasSecondaryImage : bool;   (* !!base64Image2 *)
  genMode : string;
  HARD_STRICT_MODE : bool;
  isEuropeanModel : bool;
  isAfricanModel : bool;
  isNonIndianModel : bool;
  modelType : JValue          (* attrPhrases.modelType *)
}.

(** ** Constants and loop variables *)

Definition MIN_SIZE : Z := 1 * 1024 * 1024.
Definition MAX_SIZE : Z := 3 * 1024 * 1024.

(** Iterations of [for (let i = 0; i < 25; i++)]. *)
Definition MAX_ITER : nat := 25.

(** The [let] variables of the conversion block; [jpgBuffer] is undefined
    until the first encode returns. *)
Record Vars : Type := mkVars {
  jpgBuffer : option Buffer;
  width : Z;
  quality : Z
}.

Definition initial_vars : Vars :=
  {| jpgBuffer := None; width := 2800; quality := 94 |}.

(** One encode call of the loop, as the "Iteration" log line reports it:
    the parameters passed and the size of the result ([None] when the call
    threw). *)
Record Attempt : Type := mkAttempt {
  att_width : Z;
  att_quality : Z;
  att_size : option Z
}.

(** ** The adjustments of one iteration *)

(** [size >= MIN_SIZE && size <= MAX_SIZE] *)
Definition in_range (size : Z) : bool :=
  (MIN_SIZE <=? size) && (size <=? MAX_SIZE).

(** [if (size < MIN_SIZE) { width += 250; quality = Math.min(quality + 2, 98); }] *)
Definition too_small (size : Z) (wq : Z * Z) : Z * Z :=
  let (w, q) := wq in
  if size <? MIN_SIZE then (w + 250, Z.min (q + 2) 98) else (w, q).

(** [if (size > MAX_SIZE) { if (quality > 85) quality -= 4; else width -= 250; }] *)
Definition too_big (size : Z) (wq : Z * Z) : Z * Z :=
  let (w, q) := wq in
  if size >? MAX_SIZE
  then (if q >? 85 then (w, q - 4) else (w - 250, q))
  else (w, q).

(** [if (quality < 80) quality = 80; if (width < 2000) width = 2000;] *)
Definition safety_limits (wq : Z * Z) : Z * Z :=
  let (w, q) := wq in
  let q' := if q <? 80 then 80 else q in
  let w' := if w <? 2000 then 2000 else w in
  (w', q').

(** The three statements in the order the loop body runs them. *)
Definition adjust (size : Z) (wq : Z * Z) : Z * Z :=
  safety_limits (too_big size (too_small size wq)).

(** How the loop is left: by an exception of the encode call, or normally
    (by [break] or when the counter reaches its bound) with the variables
    as they then stand. *)
Inductive LoopExit : Type :=
| Thrown
| Finished (v : Vars).

(** [(x).toFixed(2)] for x = size / (1024 * 1024), in hundredths: the
    integer nearest to 100 x, the larger one on a tie.  The quotient by
    2^20 is exact in a double, so no rounding precedes this one. *)
Definition toFixed2_MB (size : Z) : Z :=
  (200 * size + 1024 * 1024) / (2 * 1024 * 1024).

(** [Math.round(len / 1024)]: nearest integer, ties upwards. *)
Definition round_KB (len : Z) : Z := (2 * len + 1024) / 2048.

(** ** The handler *)

(** What one request produces: the HTTP response, the reports written with
    [console.error], and the encode calls made. *)
Record Outcome : Type := mkOutcome {
  response : Response;
  error_log : list SizeLockReport;
  attempts : list Attempt
}.

(** The [catch] clause of the handler. *)
Definition catch_response : Response :=
  mkResponse 500 (JObj [("error", JStr "Failed to generate image.")]).

Definition size_lock_response : Response :=
  mkResponse 500
    (JObj [("error", JStr "Failed to generate image within 1–3 MB size constraints")]).

Definition success_response (ctx : RequestContext) (pngBuffer jpg : Buffer)
    (w q : Z) : Response :=
  mkResponse 200
    (JObj [("imageBase64", JBase64 jpg);
           ("mimeType", JStr "image/jpeg");
           ("provider", JStr "gemini");
           ("debugInfo",
            JObj [("originalSizeKB", JNum (round_KB (buffer_length pngBuffer)));
                  ("finalSizeMB", JCenti (toFixed2_MB (buffer_length jpg)));
                  ("finalWidth", JNum w);
                  ("finalQuality", JNum q);
                  ("isPalluSpread", JBool (isPalluSpreadPose ctx));
                  ("isBlouseZoom", JBool (isBlouseZoomPose ctx));
                  ("hasSecondaryImage", JBool (hasSecondaryImage ctx));
                  ("generationMode", JStr (genMode ctx));
                  ("strictMode", JBool (HARD_STRICT_MODE ctx));
                  ("isEuropeanModel", JBool (isEuropeanModel ctx));
                  ("isAfricanModel", JBool (isAfricanModel ctx));
                  ("isNonIndianModel", JBool (isNonIndianModel ctx));
                  ("modelType", modelType ctx)])]).

Section Handler.

(** [sharp(pngBuffer).resize({width, withoutEnlargement: false})
      .jpeg({quality, mozjpeg: true, chromaSubsampling: "4:4:4"}).toBuffer()]:
    the JPEG bytes, or [None] when the promise rejects (an input sharp
    cannot decode, for one). *)
Variable sharp_jpeg : Buffer -> Z -> Z -> option Buffer.

(** The [for] loop, with [n] iterations left.  It returns the encode calls
    made, in order, and the way the loop was left. *)
Fixpoint convert_loop (pngBuffer : Buffer) (n : nat) (v : Vars)
  : list Attempt * LoopExit :=
  match n with
  | O => ([], Finished v)
  | S n' =>
      match sharp_jpeg pngBuffer (width v) (quality v) with
      | None => ([mkAttempt (width v) (quality v) None], Thrown)
      | Some buf =>
          let size := buffer_length buf in
          let att := mkAttempt (width v) (quality v) (Some size) in
          if in_range size
          then ([att], Finished (mkVars (Some buf) (width v) (quality v)))
          else
            let (w', q') := adjust size (width v, quality v) in
            let (rest, exit) := convert_loop pngBuffer n' (mkVars (Some buf) w' q') in
            (att :: rest, exit)
      end
  end.

(** The final validation and the two [return]s after it. *)
Definition final_validation (ctx : RequestContext) (pngBuffer : Buffer)
    (v : Vars) : Response * list SizeLockReport :=
  match jpgBuffer v with
  | None => (catch_response, [])      (* [jpgBuffer.length] on undefined throws *)
  | Some jpg =>
      let finalSize := buffer_length jpg in
      if (finalSize <? MIN_SIZE) || (finalSize >? MAX_SIZE)
      then (size_lock_response,
            [mkSizeLockReport (toFixed2_MB finalSize) (width v) (quality v)
               (MIN_SIZE / (1024 * 1024)) (MAX_SIZE / (1024 * 1024))])
      else (success_response ctx pngBuffer jpg (width v) (quality v), [])
  end.

(** [generateImage] from the point where the model's image has been decoded
    into [pngBuffer]: the conversion loop, the final validation, and the
    [catch] clause around both. *)
Definition generateImage (ctx : RequestContext) (pngBuffer : Buffer) : Outcome :=
  let (tr, exit) := convert_loop pngBuffer MAX_ITER initial_vars in
  match exit with
  | Thrown => mkOutcome catch_response [] tr
  | Finished v =>
      let (resp, log) := final_validation ctx pngBuffer v in
      mkOutcome resp log tr
  end.

End Handler.

(** ** The handler over a codec given as a relation

    The same control flow, with the encode call as a relation
    [Enc png w q r] ("this call can return [r]") instead of a function, so
    that a codec whose result is not determined by its arguments can be
    described and two requests compared. *)

Section Relational.

Variable Enc : Buffer -> Z -> Z -> option Buffer -> Prop.

Inductive loop_runs (pngBuffer : Buffer)
  : nat -> Vars -> list Attempt -> LoopExit -> Prop :=
| runs_bound v :
    loop_runs pngBuffer O v [] (Finished v)
| runs_throw n v :
    Enc pngBuffer (width v) (quality v) None ->
    loop_runs pngBuffer (S n) v [mkAttempt (width v) (quality v) None] Thrown
| runs_break n v buf :
    Enc pngBuffer (width v) (quality v) (Some buf) ->
    in_range (buffer_length buf) = true ->
    loop_runs pngBuffer (S n) v
      [mkAttempt (width v) (quality v) (Some (buffer_length buf))]
      (Finished (mkVars (Some buf) (width v) (quality v)))
| runs_next n v buf w' q' rest exit :
    Enc pngBuffer (width v) (quality v) (Some buf) ->
    in_range (buffer_length buf) = false ->
    adjust (buffer_length buf) (width v, quality v) = (w', q') ->
    loop_runs pngBuffer n (mkVars (Some buf) w' q') rest exit ->
    loop_runs pngBuffer (S n) v
      (mkAttempt (width v) (quality v) (Some (buffer_length buf)) :: rest) exit.

Inductive handler_runs (ctx : RequestContext) (pngBuffer : Buffer)
  : Outcome -> Prop :=
| handler_throws tr :
    loop_runs pngBuffer MAX_ITER initial_vars tr Thrown ->
    handler_runs ctx pngBuffer (mkOutcome catch_response [] tr)
| handler_returns tr v :
    loop_runs pngBuffer MAX_ITER initial_vars tr (Finished v) ->
    handler_runs ctx pngBuffer
      (mkOutcome (fst (final_validation ctx pngBuffer v))
                 (snd (final_validation ctx pngBuffer v)) tr).

End Relational.

(** The relation of a codec that is a function of its arguments. *)
Definition graph_of (sharp_jpeg : Buffer -> Z -> Z -> option Buffer)
  : Buffer -> Z -> Z -> option Buffer -> Prop :=
  fun png w q r => sharp_jpeg png w q = r.

(** ** Reading a response *)

(** The bytes a response carries in its [imageBase64] property. *)
Definition returned_image (r : Response) : option Buffer :=
  match jget "imageBase64" (body r) with
  | Some (JBase64 b) => Some b
  | _ => None
  end.

(** A property of the [debugInfo] object of a response. *)
Definition debug_info (k : string) (r : Response) : option JValue :=
  match jget "debugInfo" (body r) with
  | Some d => jget k d
  | None => None
  end.

(** ** Predicates on loop states and encode calls *)

(** The bounds the loop variables keep: the width floor of the safety
    limits, and a quality between 82 and 98. *)
Definition params_ok (w q : Z) : Prop := 2000 <= w /\ 82 <= q <= 98.

Definition vars_ok (v : Vars) : Prop := params_ok (width v) (quality v).

Definition attempt_ok (a : Attempt) : Prop :=
  params_ok (att_width a) (att_quality a).

(** [b] is the encode call that follows [a]: [a] returned a size outside the
    window and [b] was made with the adjusted parameters. *)
Definition follows (a b : Attempt) : Prop :=
  exists size, att_size a = Some size /\ in_range size = false /\
    (att_width b, att_quality b) = adjust size (att_width a, att_quality a).

(** No buffer inside the window has been produced yet. *)
Definition no_result_yet (v : Vars) : Prop :=
  match jpgBuffer v with
  | None => True
  | Some jpg => in_range (buffer_length jpg) = false
  end.

(** ** Sample requests *)

Definition zeros (n : Z) : Buffer := List.repeat Byte.x00 (Z.to_nat n).

(** A JPEG of 3 MB and one byte, and one of exactly 1 MB. *)
Definition jpeg_over_3MB : Buffer := zeros 3145729.
Definition jpeg_1MB : Buffer := zeros 1048576.

(** Codecs: every encode one byte too big; every encode empty; every encode
    1 MB; rejecting the source outright. *)
Definition always_too_big (_ : Buffer) (_ _ : Z) : option Buffer := Some jpeg_over_3MB.
Definition always_empty (_ : Buffer) (_ _ : Z) : option Buffer := Some [].
Definition always_1MB (_ : Buffer) (_ _ : Z) : option Buffer := Some jpeg_1MB.
Definition undecodable (_ : Buffer) (_ _ : Z) : option Buffer := None.

(** A codec whose encodes are empty below the width 3300 and 1 MB from
    there on. *)
Definition empty_below_3300 (_ : Buffer) (w _ : Z) : option Buffer :=
  if w <? 3300 then Some [] else Some jpeg_1MB.

(** The encode calls of a request whose encodes are all empty. *)
Definition calls_when_empty : list Attempt :=
  List.map (fun i => mkAttempt (2800 + 250 * i) (Z.min (94 + 2 * i) 98) (Some 0))
    [0; 1; 2; 3; 4; 5; 6; 7; 8; 9; 10; 11; 12; 13; 14; 15; 16; 17; 18; 19; 20;
     21; 22; 23; 24].

Definition sample_context : RequestContext :=
  mkRequestContext false false false "POSE_BASED" false false false false JNull.

(** ** The front of the handler: form values, validation, detection

    [generateImage] up to the prompt assembly (the helpers, the three 400
    answers, the attributes and the flags detected in the texts), and the
    reading of the model's answer.  The prompt itself (the template
    literals pushed on [promptParts]) is not modelled: nothing below
    depends on its text. *)

Module Request.

(** A JavaScript string: its UTF-16 code units. *)
Definition Text : Type := list N.

(** A literal whose characters are all ASCII. *)
Definition lit (s : string) : Text :=
  List.map (fun a => N.of_nat (Ascii.nat_of_ascii a)) (list_ascii_of_string s).

Definition is_empty (s : Text) : bool :=
  match s with [] => true | _ :: _ => false end.

(** [a === b] on strings. *)
Fixpoint text_eqb (a b : Text) : bool :=
  match a, b with
  | [], [] => true
  | x :: a', y :: b' => (x =? y)%N && text_eqb a' b'
  | _, _ => false
  end.

(** The code units [String.prototype.trim] removes: WhiteSpace (TAB, VT,
    FF, SP, NBSP, ZWNBSP and the Unicode space separators) and
    LineTerminator (LF, CR, LS, PS). *)
Definition is_white_space (c : N) : bool :=
  List.existsb (N.eqb c)
    [9; 10; 11; 12; 13; 32; 160; 5760;
     8192; 8193; 8194; 8195; 8196; 8197; 8198; 8199; 8200; 8201; 8202;
     8232; 8233; 8239; 8287; 12288; 65279]%N.

Fixpoint trimStart (s : Text) : Text :=
  match s with
  | [] => []
  | c :: s' => if is_white_space c then trimStart s' else s
  end.

Definition trimEnd (s : Text) : Text := List.rev (trimStart (List.rev s)).

Definition trim (s : Text) : Text := trimEnd (trimStart s).

(** [l.join(sep)] on an array of strings. *)
Fixpoint join (sep : Text) (l : list Text) : Text :=
  match l with
  | [] => []
  | [x] => x
  | x :: l' => x ++ sep ++ join sep l'
  end.

Fixpoint startsWith (s prefix : Text) : bool :=
  match prefix, s with
  | [], _ => true
  | _ :: _, [] => false
  | p :: prefix', c :: s' => (c =? p)%N && startsWith s' prefix'
  end.

(** [s.includes(needle)] *)
Fixpoint includes (s needle : Text) : bool :=
  startsWith s needle ||
  match s with
  | [] => false
  | _ :: s' => includes s' needle
  end.

(** [k.endsWith(suffix)] on a property name. *)
Definition endsWith (k suffix : string) : bool :=
  (String.length suffix <=? String.length k)%nat &&
  String.eqb
    (String.substring (String.length k - String.length suffix)
       (String.length suffix) k)
    suffix.

(** What a field of a multipart form body holds when no field name of the
    form has a bracket: nothing, a text, or the list of texts of a field
    sent more than once; [VNull] is the [null] the handler itself puts in
    [attributes].  The values of the other forms are those of [FormBody]
    below. *)
Inductive FormValue : Type :=
| VUndefined
| VNull
| VText (s : Text)
| VList (l : list Text).

(** [String(v)] *)
Definition to_string (v : FormValue) : Text :=
  match v with
  | VUndefined => lit "undefined"
  | VNull => lit "null"
  | VText s => s
  | VList l => join (lit ",") l
  end.

(** Truthiness: [undefined], [null] and the empty string are falsy, an
    array never is. *)
Definition truthy (v : FormValue) : bool :=
  match v with
  | VUndefined | VNull => false
  | VText s => negb (is_empty s)
  | VList _ => true
  end.

(** [v || d] *)
Definition or_else (v d : FormValue) : FormValue := if truthy v then v else d.

(** [(Array.isArray(v) ? v : [v]).join(sep)]; [join] renders an element
    that is [undefined] or [null] as the empty string. *)
Definition join_value (sep : Text) (v : FormValue) : Text :=
  match v with
  | VList l => join sep l
  | VText s => s
  | VUndefined | VNull => []
  end.

(** [v !== undefined && v !== null && String(v).trim() !== ""] *)
Definition present (v : FormValue) : bool :=
  match v with
  | VUndefined | VNull => false
  | _ => negb (is_empty (trim (to_string v)))
  end.

(** [Array.isArray(v) ? v.length > 0 : present(v)] *)
Definition isArrayPresent (v : FormValue) : bool :=
  match v with
  | VList l => (0 <? List.length l)%nat
  | _ => present v
  end.

Definition mergeChoice (dropdown note : FormValue) (fallback : Text) : FormValue :=
  if isArrayPresent dropdown then
    VText (join_value (lit ", ") dropdown ++
           (if truthy note then lit ". Extra note: " ++ to_string note else []))
  else if truthy dropdown && truthy note then
    VText (to_string dropdown ++ lit ". Extra note: " ++ to_string note)
  else if truthy dropdown then dropdown
  else if truthy note then note
  else VText fallback.

(** "natural expression, age 20-40", the dash being U+2013. *)
Definition default_expression : Text :=
  lit "natural expression, age 20" ++ [8211%N] ++ lit "40".

Definition formatExpression (selected note : FormValue) : Text :=
  let parts :=
    (if truthy selected then [join_value (lit ", ") selected] else []) ++
    (if truthy note then [to_string note] else []) in
  match parts with
  | [] => default_expression
  | _ => join (lit " and ") parts
  end.

(** A JavaScript object with text keys, in insertion order; a key that is
    not there reads as [undefined]. *)
Definition Fields : Type := list (string * FormValue).

Fixpoint field (k : string) (o : Fields) : FormValue :=
  match o with
  | [] => VUndefined
  | (k', v) :: o' => if String.eqb k k' then v else field k o'
  end.

(** [present(v) ? v : null] and [isArrayPresent(v) ? v : null] *)
Definition kept (v : FormValue) : FormValue := if present v then v else VNull.
Definition kept_array (v : FormValue) : FormValue :=
  if isArrayPresent v then v else VNull.

(** The [attributes] object, built from the fields of [req.body]. *)
Definition attributes (raw : Fields) : Fields :=
  [("modelType", kept (field "modelType" raw));
   ("modelTypeNote", kept (field "modelTypeNote" raw));
   ("modelExpression", kept_array (field "modelExpression" raw));
   ("modelExpressionNote", kept (field "modelExpressionNote" raw));
   ("hair", kept (field "hair" raw));
   ("hairNote", kept (field "hairNote" raw));
   ("pose", kept (field "pose" raw));
   ("poseNote", kept (field "poseNote" raw));
   ("location", kept (field "location" raw));
   ("locationNote", kept (field "locationNote" raw));
   ("accessories", kept (field "accessories" raw));
   ("accessoriesNote", kept (field "accessoriesNote" raw));
   ("otherOption", kept (field "otherOption" raw));
   ("otherOptionNote", kept (field "otherOptionNote" raw));
   ("otherDetails", kept (field "otherDetails" raw))].

Definition is_null (v : FormValue) : bool :=
  match v with VNull => true | _ => false end.

(** [Object.keys(attributes).filter((k) => !k.endsWith("Note") && attributes[k] !== null)] *)
Definition changedFields (attrs : Fields) : list string :=
  List.filter
    (fun k => negb (endsWith k "Note") && negb (is_null (field k attrs)))
    (List.map fst attrs).

(** [(attributes.pose || "") + " " + (attributes.poseNote || "")] *)
Definition poseText (attrs : Fields) : Text :=
  to_string (or_else (field "pose" attrs) (VText [])) ++ lit " " ++
  to_string (or_else (field "poseNote" attrs) (VText [])).

(** The [defaults] object. *)
Definition default_modelType : Text :=
  lit "Indian woman, medium height, average build, realistic proportions".
Definition default_modelExpression : Text :=
  lit "natural relaxed expression, age 20" ++ [8211%N] ++ lit "40".
Definition default_hair : Text := lit "classic Indian hairstyle, neat bun or braid".
Definition default_pose : Text :=
  lit "full body front pose, standing naturally, weight balanced".
Definition default_location : Text :=
  lit "modern living room interior, home environment".
Definition default_accessories : Text := lit "light traditional jewellery only".
Definition default_otherOption : Text :=
  lit "match saree design, border, motifs, and colours exactly from primary reference image".

(** The [attrPhrases] object. *)
Definition attrPhrases (attrs : Fields) : Fields :=
  [("modelType",
    mergeChoice (field "modelType" attrs) (field "modelTypeNote" attrs) default_modelType);
   ("modelExpression",
    VText (formatExpression (field "modelExpression" attrs)
             (field "modelExpressionNote" attrs)));
   ("hair", mergeChoice (field "hair" attrs) (field "hairNote" attrs) default_hair);
   ("pose", mergeChoice (field "pose" attrs) (field "poseNote" attrs) default_pose);
   ("location",
    mergeChoice (field "location" attrs) (field "locationNote" attrs) default_location);
   ("accessories",
    mergeChoice (field "accessories" attrs) (field "accessoriesNote" attrs)
      default_accessories);
   ("otherOption",
    mergeChoice (field "otherOption" attrs) (field "otherOptionNote" attrs)
      default_otherOption);
   ("otherDetails", or_else (field "otherDetails" attrs) (VText []))].

(** A file as multer leaves it in [req.files]. *)
Record UploadedFile : Type := mkUploadedFile {
  file_buffer : Buffer;
  file_mimetype : Text
}.

(** The parts of a request the handler reads: [req.files.referenceImage[0]],
    [req.files.referenceImage2[0]] (absent when the field, or [req.files],
    is) and the fields of [req.body] (none when the body is absent). *)
Record Request : Type := mkRequest {
  referenceImage : option UploadedFile;
  referenceImage2 : option UploadedFile;
  body : Fields
}.

(** [raw.generationMode || "POSE_BASED"] *)
Definition genMode (raw : Fields) : FormValue :=
  or_else (field "generationMode" raw) (VText (lit "POSE_BASED")).

(** [genMode === "MODEL_REFERENCE_BASED"] *)
Definition is_model_reference_mode (g : FormValue) : bool :=
  match g with
  | VText s => text_eqb s (lit "MODEL_REFERENCE_BASED")
  | _ => false
  end.

Definition bad_request (message : string) : Response :=
  mkResponse 400 (JObj [("error", JStr message)]).

Definition is_some {A : Type} (o : option A) : bool :=
  match o with Some _ => true | None => false end.

(** One part of the first candidate of the model's answer: a text, or
    inline data (base64 text, possibly empty). *)
Inductive Part : Type :=
| TextPart (t : Text)
| InlinePart (data : Text).

(** [part.inlineData?.data] is truthy. *)
Definition has_data (p : Part) : bool :=
  match p with
  | InlinePart d => negb (is_empty d)
  | TextPart _ => false
  end.

(** The [for (const part of parts)] loop: the data of the first part whose
    [inlineData.data] is truthy. *)
Fixpoint first_image (parts : list Part) : option Text :=
  match parts with
  | [] => None
  | InlinePart d :: parts' =>
      if is_empty d then first_image parts' else Some d
  | TextPart _ :: parts' => first_image parts'
  end.

Definition no_image_response : Response :=
  mkResponse 500 (JObj [("error", JStr "No image returned from Gemini.")]).

(** The reading of the model's answer: the base64 text to convert, or the
    answer sent when [imageBase64] is still [null] after the loop. *)
Definition read_answer (parts : list Part) : Response + Text :=
  match first_image parts with
  | Some d => inr d
  | None => inl no_image_response
  end.

Section Detection.

(** [String.prototype.toLowerCase] *)
Variable toLowerCase : Text -> Text.

(** The flags read from the pose text. *)
Definition mentions (text : Text) (word : string) : bool :=
  includes (toLowerCase text) (lit word).

Definition isBackPose (p : Text) : bool := mentions p "back" || mentions p "rear".

Definition zoomKeywords : list string :=
  ["zoom"; "close up"; "close-up"; "head to knees"; "closeup"].

Definition isBlouseZoomPose (p : Text) : bool :=
  mentions p "blouse" && mentions p "zoom".

Definition isMirrorPose (p : Text) : bool := mentions p "mirror".

Definition isKitchenLaptop (p : Text) : bool :=
  mentions p "laptop" || mentions p "working on laptop".

Definition isKitchenCooking (p : Text) : bool :=
  mentions p "kitchen cooking" || mentions p "chopping" ||
  mentions p "cutting vegetables".

Definition isKitchenCoffee (p : Text) : bool :=
  mentions p "coffee" || mentions p "tea" || mentions p "holding cup" ||
  mentions p "kitchen coffee".

Definition isPalluSpreadPose (p : Text) : bool :=
  mentions p "pallu spread" || mentions p "palldu spread" ||
  mentions p "pallu display" || mentions p "showing pallu" ||
  mentions p "pallu visible" || mentions p "dupatta spread" ||
  mentions p "holding dupatta".

Definition isZoom (p : Text) : bool :=
  List.existsb (fun kw => mentions p kw) zoomKeywords.

(** The three early [return res.status(400)], in the order the handler
    tests them; [None] when the request passes all three. *)
Definition validate (req : Request) : option Response :=
  if is_model_reference_mode (genMode (body req)) && negb (is_some (referenceImage2 req))
  then Some (bad_request "Model reference image is required for this mode.")
  else if negb (is_some (referenceImage req))
  then Some (bad_request "Reference image is required.")
  else if isBackPose (poseText (attributes (body req))) &&
          negb (is_some (referenceImage2 req))
  then Some (bad_request "Back pose requires SECOND reference image of same saree.")
  else None.

(** [v.toLowerCase()]: a method of strings only; on an array the call
    throws a TypeError ([None]). *)
Definition lower_of (v : FormValue) : option Text :=
  match v with
  | VText s => Some (toLowerCase s)
  | _ => None
  end.

(** What the handler has detected when it starts to assemble the prompt. *)
Record Analysis : Type := mkAnalysis {
  an_attributes : Fields;
  an_changedFields : list string;
  an_poseText : Text;
  an_attrPhrases : Fields;
  selectedModelType : Text;
  isEuropeanModel : bool;
  isAfricanModel : bool;
  isNonIndianModel : bool;
  isLivingRoom : bool;
  indoorNoCeiling : bool
}.

(** The handler from its first line to the prompt assembly: an early
    answer (one of the 400s, or the 500 of the [catch] clause when
    [toLowerCase] is called on an array), or the values detected. *)
Definition analyse (req : Request) : Response + Analysis :=
  match validate req with
  | Some r => inl r
  | None =>
      let attrs := attributes (body req) in
      let phrases := attrPhrases attrs in
      match lower_of (or_else (field "modelType" phrases) (VText default_modelType)) with
      | None => inl catch_response
      | Some selected =>
          let european := includes selected (lit "european") in
          let african := includes selected (lit "african") in
          match lower_of (or_else (field "location" phrases) (VText [])) with
          | None => inl catch_response
          | Some loc =>
              let living := includes loc (lit "living room") || includes loc (lit "home") in
              let indoor := includes loc (lit "living room") || includes loc (lit "home") ||
                            includes loc (lit "office") in
              inr (mkAnalysis attrs (changedFields attrs) (poseText attrs) phrases
                     selected european african (european || african) living indoor)
          end
      end
  end.

End Detection.

(** Texts whose code units are all white space. *)
Definition blank (s : Text) : bool := List.forallb is_white_space s.

(** The fields whose phrase [attrPhrases] builds with [mergeChoice], each
    with its note and its default. *)
Definition merged_fields : list (string * string * Text) :=
  [("modelType", "modelTypeNote", default_modelType);
   ("hair", "hairNote", default_hair);
   ("pose", "poseNote", default_pose);
   ("location", "locationNote", default_location);
   ("accessories", "accessoriesNote", default_accessories);
   ("otherOption", "otherOptionNote", default_otherOption)].

(** The ASCII part of [toLowerCase], for sample requests. *)
Definition ascii_lower (s : Text) : Text :=
  List.map (fun c => if (65 <=? c)%N && (c <=? 90)%N then (c + 32)%N else c) s.

End Request.

(** ** The front of the handler on every body multer can build

    [Request] above takes the fields of a body to be texts or lists of
    texts, on which [String(v)] always returns.  multer also builds, from
    field names with brackets ([hair[style]], [modelExpression[0][0]]),
    objects without a prototype and lists within lists, and [String(v)]
    throws a TypeError on such an object and on a list that holds one.
    [FormBody] is the same code on these values, with [None] for the
    TypeError; on the bodies of [Request] the two agree.  A request that
    is not multipart has no file and is answered 400 before any attribute
    is read. *)

Module FormBody.

Import Request.

(** A value of a body: nothing, [null] (which only the handler itself
    writes), a text, a list (an empty slot of a sparse list is a
    [BUndefined] element), or an object without a prototype.  The handler
    reads no property of such an object, and [String] throws on it whatever
    it holds: it inherits no [toString] or [valueOf], and a property multer
    gives it is a text, a list or an object, never a function. *)
Inductive Value : Type :=
| BUndefined
| BNull
| BText (s : Text)
| BList (l : list Value)
| BObject.

(** [String(v)], and the texts [Array.prototype.join] makes of the elements
    of a list: the empty text for [undefined] and [null], [String(x)] for
    any other element.  [None] when the conversion throws. *)
Fixpoint render (v : Value) : option Text :=
  match v with
  | BUndefined => Some (lit "undefined")
  | BNull => Some (lit "null")
  | BText s => Some s
  | BObject => None
  | BList l =>
      option_map (join (lit ","))
        ((fix texts (l : list Value) : option (list Text) :=
            match l with
            | [] => Some []
            | x :: l' =>
                match (match x with
                       | BUndefined | BNull => Some []
                       | _ => render x
                       end), texts l' with
                | Some t, Some ts => Some (t :: ts)
                | _, _ => None
                end
            end) l)
  end.

Definition element_text (x : Value) : option Text :=
  match x with
  | BUndefined | BNull => Some []
  | _ => render x
  end.

Fixpoint element_texts (l : list Value) : option (list Text) :=
  match l with
  | [] => Some []
  | x :: l' =>
      match element_text x, element_texts l' with
      | Some t, Some ts => Some (t :: ts)
      | _, _ => None
      end
  end.

(** [(Array.isArray(v) ? v : [v]).join(sep)] *)
Definition join_value (sep : Text) (v : Value) : option Text :=
  match v with
  | BList l => option_map (join sep) (element_texts l)
  | _ => element_text v
  end.

(** Truthiness: lists and objects are truthy. *)
Definition truthy (v : Value) : bool :=
  match v with
  | BUndefined | BNull => false
  | BText s => negb (is_empty s)
  | BList _ | BObject => true
  end.

Definition or_else (v d : Value) : Value := if truthy v then v else d.

(** [v !== undefined && v !== null && String(v).trim() !== ""] *)
Definition present (v : Value) : option bool :=
  match v with
  | BUndefined | BNull => Some false
  | _ => option_map (fun t => negb (is_empty (trim t))) (render v)
  end.

(** [Array.isArray(v) ? v.length > 0 : present(v)] *)
Definition isArrayPresent (v : Value) : option bool :=
  match v with
  | BList l => Some (0 <? List.length l)%nat
  | _ => present v
  end.

Definition mergeChoice (dropdown note : Value) (fallback : Text) : option Value :=
  match isArrayPresent dropdown with
  | None => None
  | Some true =>
      match join_value (lit ", ") dropdown,
            (if truthy note
             then option_map (fun t => lit ". Extra note: " ++ t) (render note)
             else Some []) with
      | Some choice, Some extra => Some (BText (choice ++ extra))
      | _, _ => None
      end
  | Some false =>
      if truthy dropdown && truthy note then
        match render dropdown, render note with
        | Some d, Some n => Some (BText (d ++ lit ". Extra note: " ++ n))
        | _, _ => None
        end
      else if truthy dropdown then Some dropdown
      else if truthy note then Some note
      else Some (BText fallback)
  end.

Definition formatExpression (selected note : Value) : option Text :=
  match (if truthy selected
         then option_map (fun t => [t]) (join_value (lit ", ") selected)
         else Some []),
        (if truthy note then option_map (fun t => [t]) (render note) else Some []) with
  | Some first, Some second =>
      Some match first ++ second with
           | [] => default_expression
           | parts => join (lit " and ") parts
           end
  | _, _ => None
  end.

(** An object with text keys, in insertion order. *)
Definition Fields : Type := list (string * Value).

Fixpoint field (k : string) (o : Fields) : Value :=
  match o with
  | [] => BUndefined
  | (k', v) :: o' => if String.eqb k k' then v else field k o'
  end.

(** The evaluation of an object literal whose property values can throw. *)
Fixpoint literal (l : list (string * option Value)) : option Fields :=
  match l with
  | [] => Some []
  | (k, Some v) :: l' => option_map (cons (k, v)) (literal l')
  | (_, None) :: _ => None
  end.

(** [present(v) ? v : null] and [isArrayPresent(v) ? v : null] *)
Definition kept (v : Value) : option Value :=
  option_map (fun p : bool => if p then v else BNull) (present v).
Definition kept_array (v : Value) : option Value :=
  option_map (fun p : bool => if p then v else BNull) (isArrayPresent v).

Definition attributes (raw : Fields) : option Fields :=
  literal
    [("modelType", kept (field "modelType" raw));
     ("modelTypeNote", kept (field "modelTypeNote" raw));
     ("modelExpression", kept_array (field "modelExpression" raw));
     ("modelExpressionNote", kept (field "modelExpressionNote" raw));
     ("hair", kept (field "hair" raw));
     ("hairNote", kept (field "hairNote" raw));
     ("pose", kept (field "pose" raw));
     ("poseNote", kept (field "poseNote" raw));
     ("location", kept (field "location" raw));
     ("locationNote", kept (field "locationNote" raw));
     ("accessories", kept (field "accessories" raw));
     ("accessoriesNote", kept (field "accessoriesNote" raw));
     ("otherOption", kept (field "otherOption" raw));
     ("otherOptionNote", kept (field "otherOptionNote" raw));
     ("otherDetails", kept (field "otherDetails" raw))].

Definition is_null (v : Value) : bool :=
  match v with BNull => true | _ => false end.

Definition changedFields (attrs : Fields) : list string :=
  List.filter
    (fun k => negb (endsWith k "Note") && negb (is_null (field k attrs)))
    (List.map fst attrs).

(** [(attributes.pose || "") + " " + (attributes.poseNote || "")] *)
Definition poseText (attrs : Fields) : option Text :=
  match render (or_else (field "pose" attrs) (BText [])),
        render (or_else (field "poseNote" attrs) (BText [])) with
  | Some pose, Some note => Some (pose ++ lit " " ++ note)
  | _, _ => None
  end.

Definition attrPhrases (attrs : Fields) : option Fields :=
  literal
    [("modelType",
      mergeChoice (field "modelType" attrs) (field "modelTypeNote" attrs)
        default_modelType);
     ("modelExpression",
      option_map BText
        (formatExpression (field "modelExpression" attrs)
           (field "modelExpressionNote" attrs)));
     ("hair", mergeChoice (field "hair" attrs) (field "hairNote" attrs) default_hair);
     ("pose", mergeChoice (field "pose" attrs) (field "poseNote" attrs) default_pose);
     ("location",
      mergeChoice (field "location" attrs) (field "locationNote" attrs)
        default_location);
     ("accessories",
      mergeChoice (field "accessories" attrs) (field "accessoriesNote" attrs)
        default_accessories);
     ("otherOption",
      mergeChoice (field "otherOption" attrs) (field "otherOptionNote" attrs)
        default_otherOption);
     ("otherDetails", Some (or_else (field "otherDetails" attrs) (BText [])))].

Record Request : Type := mkRequest {
  referenceImage : option UploadedFile;
  referenceImage2 : option UploadedFile;
  body : Fields
}.

Definition genMode (raw : Fields) : Value :=
  or_else (field "generationMode" raw) (BText (lit "POSE_BASED")).

Definition is_model_reference_mode (g : Value) : bool :=
  match g with
  | BText s => text_eqb s (lit "MODEL_REFERENCE_BASED")
  | _ => false
  end.

Section Detection.

Variable toLowerCase : Text -> Text.

(** [v.toLowerCase()]: a method of strings only. *)
Definition lower_of (v : Value) : option Text :=
  match v with
  | BText s => Some (toLowerCase s)
  | _ => None
  end.

Record Analysis : Type := mkAnalysis {
  an_attributes : Fields;
  an_changedFields : list string;
  an_poseText : Text;
  an_attrPhrases : Fields;
  selectedModelType : Text;
  isEuropeanModel : bool;
  isAfricanModel : bool;
  isNonIndianModel : bool;
  isLivingRoom : bool;
  indoorNoCeiling : bool
}.

(** The handler from its first line to the prompt assembly, in the order
    of the source: the mode and the reference image are tested before any
    field is read; a TypeError at any point is answered by the [catch]
    clause. *)
Definition analyse (req : Request) : Response + Analysis :=
  if is_model_reference_mode (genMode (body req)) && negb (is_some (referenceImage2 req))
  then inl (bad_request "Model reference image is required for this mode.")
  else if negb (is_some (referenceImage req))
  then inl (bad_request "Reference image is required.")
  else
    match attributes (body req) with
    | None => inl catch_response
    | Some attrs =>
        match poseText attrs with
        | None => inl catch_response
        | Some pose =>
            if isBackPose toLowerCase pose && negb (is_some (referenceImage2 req))
            then inl (bad_request "Back pose requires SECOND reference image of same saree.")
            else
              match attrPhrases attrs with
              | None => inl catch_response
              | Some phrases =>
                  match lower_of (or_else (field "modelType" phrases)
                                    (BText default_modelType)) with
                  | None => inl catch_response
                  | Some selected =>
                      let european := includes selected (lit "european") in
                      let african := includes selected (lit "african") in
                      match lower_of (or_else (field "location" phrases) (BText [])) with
                      | None => inl catch_response
                      | Some loc =>
                          let living := includes loc (lit "living room") ||
                                        includes loc (lit "home") in
                          let indoor := includes loc (lit "living room") ||
                                        includes loc (lit "home") ||
                                        includes loc (lit "office") in
                          inr (mkAnalysis attrs (changedFields attrs) pose phrases
                                 selected european african (european || african)
                                 living indoor)
                      end
                  end
              end
        end
    end.

End Detection.

(** [v] is an object without a prototype, or a list that holds one at any
    depth. *)
Fixpoint holds_object (v : Value) : bool :=
  match v with
  | BObject => true
  | BList l =>
      (fix any (l : list Value) : bool :=
         match l with
         | [] => false
         | x :: l' => holds_object x || any l'
         end) l
  | _ => false
  end.

(** [v], as an element of a list, is joined as a text that is all white
    space: an empty slot, a blank text, or a list of at most one such
    element. *)
Fixpoint joins_blank (v : Value) : bool :=
  match v with
  | BUndefined | BNull => true
  | BText s => blank s
  | BList [] => true
  | BList [x] => joins_blank x
  | BList (_ :: _ :: _) => false
  | BObject => false
  end.

(** The fields of the body that [attributes] reads. *)
Definition attribute_keys : list string :=
  ["modelType"; "modelTypeNote"; "modelExpression"; "modelExpressionNote";
   "hair"; "hairNote"; "pose"; "poseNote"; "location"; "locationNote";
   "accessories"; "accessoriesNote"; "otherOption"; "otherOptionNote";
   "otherDetails"].

(** The field [k] is left empty and its note arrived as a list that is
    filled in. *)
Definition list_note (raw : Fields) (k note : string) : Prop :=
  present (field k raw) = Some false /\
  present (field note raw) = Some true /\
  exists l, field note raw = BList l.

(** The values and bodies of [Request] among those of [FormBody]. *)
Definition of_flat (v : FormValue) : Value :=
  match v with
  | VUndefined => BUndefined
  | VNull => BNull
  | VText s => BText s
  | VList l => BList (List.map BText l)
  end.

Definition of_flat_fields (o : Request.Fields) : Fields :=
  List.map (fun kv => (fst kv, of_flat (snd kv))) o.

Definition of_flat_request (req : Request.Request) : Request :=
  mkRequest (Request.referenceImage req) (Request.referenceImage2 req)
    (of_flat_fields (Request.body req)).

Definition of_flat_analysis (a : Request.Analysis) : Analysis :=
  mkAnalysis
    (of_flat_fields (Request.an_attributes a))
    (Request.an_changedFields a)
    (Request.an_poseText a)
    (of_flat_fields (Request.an_attrPhrases a))
    (Request.selectedModelType a)
    (Request.isEuropeanModel a)
    (Request.isAfricanModel a)
    (Request.isNonIndianModel a)
    (Request.isLivingRoom a)
    (Request.indoorNoCeiling a).

End FormBody.

(** ** Arithmetic of the adjustments *)

Ltac split_tests :=
  repeat match goal with
  | |- context [?a <? ?b] => destruct (Z.ltb_spec a b)
  | |- context [?a >? ?b] => rewrite (Z.gtb_ltb a b)
  | |- context [?a <=? ?b] => destruct (Z.leb_spec a b)
  end.

Ltac adjust_arith :=
  unfold adjust, safety_limits, too_big, too_small, in_range, params_ok,
    MIN_SIZE, MAX_SIZE in *;
  split_tests; simpl in *; try lia; try (f_equal; lia).

Lemma in_range_true (size : Z) :
  in_range size = true <-> MIN_SIZE <= size <= MAX_SIZE.
Proof.
  unfold in_range. rewrite andb_true_iff, !Z.leb_le. tauto.
Qed.

Lemma in_range_false (size : Z) :
  in_range size = false <-> size < MIN_SIZE \/ MAX_SIZE < size.
Proof.
  unfold in_range. rewrite andb_false_iff, !Z.leb_gt. tauto.
Qed.

(** The final validation tests the complement of the success test. *)
Lemma final_test_in_range (size : Z) :
  (size <? MIN_SIZE) || (size >? MAX_SIZE) = negb (in_range size).
Proof.
  unfold in_range. rewrite negb_andb, Z.gtb_ltb, !Z.leb_antisym, !negb_involutive.
  reflexivity.
Qed.

Lemma adjust_params_ok (size w q : Z) :
  params_ok w q ->
  params_ok (fst (adjust size (w, q))) (snd (adjust size (w, q))).
Proof. intros [Hw Hq]. adjust_arith. Qed.

(** Below the window: both parameters grow, the quality up to 98. *)
Lemma adjust_undersized (size w q : Z) :
  params_ok w q -> size < MIN_SIZE ->
  adjust size (w, q) = (w + 250, Z.min (q + 2) 98).
Proof. intros [Hw Hq] Hs. adjust_arith. Qed.

(** Above the window: the quality alone while it exceeds 85, then the
    width alone, which the safety limit keeps at 2000 or more. *)
Lemma adjust_oversized (size w q : Z) :
  params_ok w q -> MAX_SIZE < size ->
  adjust size (w, q) = if q >? 85 then (w, q - 4) else (Z.max (w - 250) 2000, q).
Proof.
  intros [Hw Hq] Hs. adjust_arith.
Qed.

(** Before the safety limits run, the quality is already 82 or more. *)
Lemma quality_before_limits (size w q : Z) :
  params_ok w q -> 82 <= snd (too_big size (too_small size (w, q))) <= 98.
Proof. intros [Hw Hq]. adjust_arith. Qed.

(** The adjustments at the start parameters and at the floors, and the two
    roundings, on sample values. *)
Example adjust_when_empty : adjust 0 (2800, 94) = (3050, 96).
Proof. reflexivity. Qed.

Example adjust_at_quality_cap : adjust 0 (3300, 98) = (3550, 98).
Proof. reflexivity. Qed.

Example adjust_when_4MB : adjust 4194304 (2800, 94) = (2800, 90).
Proof. reflexivity. Qed.

Example adjust_when_4MB_quality_85 : adjust 4194304 (2800, 85) = (2550, 85).
Proof. reflexivity. Qed.

Example adjust_when_4MB_at_floor : adjust 4194304 (2000, 82) = (2000, 82).
Proof. reflexivity. Qed.

Example toFixed2_MB_samples :
  toFixed2_MB 0 = 0 /\ toFixed2_MB 1572864 = 150 /\ toFixed2_MB 1053819 = 101 /\
  toFixed2_MB 3145729 = 300.
Proof. repeat split. Qed.

Example round_KB_samples : round_KB 1536 = 2 /\ round_KB 1535 = 1 /\ round_KB 0 = 0.
Proof. repeat split. Qed.

Lemma buffer_length_zeros (n : Z) : 0 <= n -> buffer_length (zeros n) = n.
Proof.
  intros Hn. unfold buffer_length, zeros. rewrite repeat_length. apply Z2Nat.id, Hn.
Qed.

(** ** The loop *)

Section LoopFacts.

Variable sharp_jpeg : Buffer -> Z -> Z -> option Buffer.
Variable pngBuffer : Buffer.

Local Abbreviation loop := (convert_loop sharp_jpeg pngBuffer).

Ltac loop_step H :=
  simpl in H;
  match type of H with
  | context [sharp_jpeg ?p ?w ?q] =>
      let E := fresh "Henc" in
      destruct (sharp_jpeg p w q) as [buf|] eqn:E;
      [ let R := fresh "Hrange" in
        destruct (in_range (buffer_length buf)) eqn:R;
        [ | let A := fresh "Hadj" in
            let L := fresh "Hloop" in
            match type of H with
            | context [adjust ?s ?wq] =>
                destruct (adjust s wq) as [w' q'] eqn:A;
                match type of H with
                | context [convert_loop _ _ ?n ?v'] =>
                    destruct (convert_loop sharp_jpeg p n v') as [rest exit'] eqn:L
                end
            end ]
      | ];
      inversion H; subst; clear H
  end.

Lemma loop_attempts_bound (n : nat) : forall v tr e,
  loop n v = (tr, e) -> (List.length tr <= n)%nat.
Proof.
  induction n as [|n IH]; intros v tr e H.
  - inversion H; simpl; lia.
  - loop_step H; simpl; try lia.
    apply IH in Hloop. lia.
Qed.

Lemma loop_first_attempt (n : nat) (v : Vars) tr e a :
  loop n v = (tr, e) -> nth_error tr 0 = Some a ->
  att_width a = width v /\ att_quality a = quality v.
Proof.
  destruct n; intros H Ha.
  - inversion H; subst; discriminate.
  - loop_step H; simpl in Ha; inversion Ha; auto.
Qed.

Lemma loop_consecutive (n : nat) : forall v tr e i a b,
  loop n v = (tr, e) ->
  nth_error tr i = Some a -> nth_error tr (S i) = Some b -> follows a b.
Proof.
  induction n as [|n IH]; intros v tr e i a b H Ha Hb.
  - inversion H; subst. destruct i; discriminate.
  - loop_step H.
    + destruct i as [|[|i]]; discriminate.
    + destruct i as [|i].
      * simpl in Ha, Hb. inversion Ha; subst a.
        destruct (loop_first_attempt _ _ _ _ _ Hloop Hb) as [Hw Hq]; simpl in Hw, Hq.
        exists (buffer_length buf); simpl. rewrite Hadj, Hw, Hq. auto.
      * simpl in Ha, Hb. eapply IH; eauto.
    + destruct i as [|[|i]]; discriminate.
Qed.

Lemma loop_params_ok (n : nat) : forall v tr e,
  loop n v = (tr, e) -> vars_ok v ->
  Forall attempt_ok tr /\
  match e with Finished v' => vars_ok v' | Thrown => True end.
Proof.
  induction n as [|n IH]; intros v tr e H Hv.
  - inversion H; subst. auto.
  - loop_step H.
    + split; [constructor; [exact Hv | constructor] | exact Hv].
    + apply IH in Hloop.
      * destruct Hloop as [Hrest He]. split; [constructor; [exact Hv | exact Hrest] | exact He].
      * pose proof (adjust_params_ok (buffer_length buf) _ _ Hv) as Hadj'.
        rewrite Hadj in Hadj'. exact Hadj'.
    + split; [constructor; [exact Hv | constructor] | exact I].
Qed.

(** A loop whose variables start without a buffer, or with one outside the
    window, can only end on a buffer inside the window by [break]: the
    buffer then is the result of the last encode call, made with the
    parameters the variables still hold. *)
Lemma loop_exit_in_range (n : nat) : forall v tr v' jpg,
  loop n v = (tr, Finished v') -> no_result_yet v ->
  jpgBuffer v' = Some jpg -> in_range (buffer_length jpg) = true ->
  sharp_jpeg pngBuffer (width v') (quality v') = Some jpg /\
  exists earlier,
    tr = earlier ++ [mkAttempt (width v') (quality v') (Some (buffer_length jpg))].
Proof.
  induction n as [|n IH]; intros v tr v' jpg H Hv Hjpg Hin.
  - inversion H; subst. unfold no_result_yet in Hv. rewrite Hjpg in Hv. congruence.
  - loop_step H.
    + simpl in Hjpg. inversion Hjpg; subst jpg. simpl.
      split; [exact Henc | exists []; reflexivity].
    + destruct (IH _ _ _ _ Hloop Hrange Hjpg Hin) as [He [earlier Htr]].
      split; [exact He |].
      exists (mkAttempt (width v) (quality v) (Some (buffer_length buf)) :: earlier).
      rewrite Htr. reflexivity.
Qed.

(** When no encode inside the parameter bounds lands in the window (and
    none throws), every iteration runs and the loop ends on a buffer outside
    the window. *)
Lemma loop_exhausted (n : nat) :
  (forall w q, params_ok w q ->
     exists buf, sharp_jpeg pngBuffer w q = Some buf /\
                 in_range (buffer_length buf) = false) ->
  forall v, vars_ok v ->
  exists tr v', loop n v = (tr, Finished v') /\ List.length tr = n /\
    (n <> O -> exists jpg, jpgBuffer v' = Some jpg /\
                           in_range (buffer_length jpg) = false).
Proof.
  intros Hall. induction n as [|n IH]; intros v Hv.
  - exists [], v. simpl. repeat split. congruence.
  - destruct (Hall _ _ Hv) as [buf [Henc Hout]].
    simpl. rewrite Henc, Hout.
    destruct (adjust (buffer_length buf) (width v, quality v)) as [w' q'] eqn:Hadj.
    assert (Hv' : vars_ok (mkVars (Some buf) w' q')).
    { pose proof (adjust_params_ok (buffer_length buf) _ _ Hv) as Hok.
      rewrite Hadj in Hok. exact Hok. }
    destruct (IH _ Hv') as [tr [v' [Hloop [Hlen Hlast]]]].
    rewrite Hloop. exists (mkAttempt (width v) (quality v) (Some (buffer_length buf)) :: tr), v'.
    repeat split; [simpl; congruence |].
    intros _. destruct n as [|n'].
    + simpl in Hloop. inversion Hloop; subst. exists buf. auto.
    + apply Hlast. congruence.
Qed.

(** With a codec whose results all have the same size [s] outside the
    window, the call number i is made with the start parameters adjusted i
    times. *)
Lemma loop_constant_size (s : Z) :
  in_range s = false ->
  (forall w q, exists buf, sharp_jpeg pngBuffer w q = Some buf /\ buffer_length buf = s) ->
  forall n v i, (i < n)%nat ->
  nth_error (fst (loop n v)) i =
    Some (mkAttempt (fst (Nat.iter i (adjust s) (width v, quality v)))
                    (snd (Nat.iter i (adjust s) (width v, quality v))) (Some s)).
Proof.
  intros Hout Hall. induction n as [|n IH]; intros v i Hi; [lia |].
  simpl. destruct (Hall (width v) (quality v)) as [buf [Henc Hlen]].
  rewrite Henc, Hlen, Hout.
  destruct (adjust s (width v, quality v)) as [w' q'] eqn:Hadj.
  specialize (IH (mkVars (Some buf) w' q')).
  destruct (loop n (mkVars (Some buf) w' q')) as [rest e].
  destruct i as [|i]; [reflexivity |].
  rewrite Nat.iter_succ_r, Hadj. simpl in IH |- *. apply IH. lia.
Qed.

End LoopFacts.


Lemma initial_vars_ok : vars_ok initial_vars.
Proof. unfold vars_ok, params_ok; simpl; lia. Qed.

(** The three shapes an outcome of the handler can have. *)
Lemma generateImage_cases sharp_jpeg ctx png :
  let o := generateImage sharp_jpeg ctx png in
  let run := convert_loop sharp_jpeg png MAX_ITER initial_vars in
  attempts o = fst run /\
  ((response o = catch_response /\ error_log o = [] /\
      (snd run = Thrown \/ exists v, snd run = Finished v /\ jpgBuffer v = None)) \/
   (exists v jpg, snd run = Finished v /\ jpgBuffer v = Some jpg /\
      in_range (buffer_length jpg) = false /\
      response o = size_lock_response /\
      error_log o = [mkSizeLockReport (toFixed2_MB (buffer_length jpg))
                       (width v) (quality v) 1 3]) \/
   (exists v jpg, snd run = Finished v /\ jpgBuffer v = Some jpg /\
      in_range (buffer_length jpg) = true /\
      response o = success_response ctx png jpg (width v) (quality v) /\
      error_log o = [])).
Proof.
  unfold generateImage.
  destruct (convert_loop sharp_jpeg png MAX_ITER initial_vars) as [tr [|v]] eqn:Hrun; simpl.
  - split; [reflexivity | left; auto].
  - unfold final_validation.
    destruct (jpgBuffer v) as [jpg|] eqn:Hjpg; simpl.
    + rewrite final_test_in_range.
      destruct (in_range (buffer_length jpg)) eqn:Hin; simpl.
      * split; [reflexivity | right; right; exists v, jpg; auto].
      * split; [reflexivity | right; left; exists v, jpg; repeat split; auto].
    + split; [reflexivity | left; repeat split; right; exists v; auto].
Qed.

(** The outcome when the first encode lands in the window. *)
Lemma generateImage_first_in_range sharp_jpeg ctx png jpg :
  sharp_jpeg png 2800 94 = Some jpg ->
  in_range (buffer_length jpg) = true ->
  generateImage sharp_jpeg ctx png =
    mkOutcome (success_response ctx png jpg 2800 94) []
      [mkAttempt 2800 94 (Some (buffer_length jpg))].
Proof.
  intros Henc Hin. unfold generateImage, MAX_ITER. simpl.
  rewrite Henc, Hin. unfold final_validation. simpl.
  rewrite final_test_in_range, Hin. reflexivity.
Qed.

Lemma generateImage_attempts_ok sharp_jpeg ctx png :
  Forall attempt_ok (attempts (generateImage sharp_jpeg ctx png)).
Proof.
  destruct (generateImage_cases sharp_jpeg ctx png) as [Htr _]. rewrite Htr.
  destruct (convert_loop sharp_jpeg png MAX_ITER initial_vars) as [tr e] eqn:Hrun.
  exact (proj1 (loop_params_ok _ _ _ _ _ _ Hrun initial_vars_ok)).
Qed.

Lemma generateImage_consecutive sharp_jpeg ctx png i a b :
  nth_error (attempts (generateImage sharp_jpeg ctx png)) i = Some a ->
  nth_error (attempts (generateImage sharp_jpeg ctx png)) (S i) = Some b ->
  attempt_ok a /\ follows a b.
Proof.
  intros Ha Hb. split.
  - pose proof (generateImage_attempts_ok sharp_jpeg ctx png) as Hall.
    rewrite Forall_forall in Hall. apply Hall. eapply nth_error_In; eauto.
  - destruct (generateImage_cases sharp_jpeg ctx png) as [Htr _].
    rewrite Htr in Ha, Hb.
    destruct (convert_loop sharp_jpeg png MAX_ITER initial_vars) as [tr e] eqn:Hrun.
    eapply loop_consecutive; eauto.
Qed.

Lemma generateImage_constant_size sharp_jpeg ctx png (s : Z) (i : nat) :
  in_range s = false ->
  (forall w q, exists buf, sharp_jpeg png w q = Some buf /\ buffer_length buf = s) ->
  (i < MAX_ITER)%nat ->
  nth_error (attempts (generateImage sharp_jpeg ctx png)) i =
    Some (mkAttempt (fst (Nat.iter i (adjust s) (2800, 94)))
                    (snd (Nat.iter i (adjust s) (2800, 94))) (Some s)).
Proof.
  intros Hout Hall Hi.
  destruct (generateImage_cases sharp_jpeg ctx png) as [Htr _]. rewrite Htr.
  exact (loop_constant_size sharp_jpeg png s Hout Hall MAX_ITER initial_vars i Hi).
Qed.

Lemma always_too_big_size (png : Buffer) (w q : Z) :
  exists buf, always_too_big png w q = Some buf /\ buffer_length buf = 3145729.
Proof.
  exists jpeg_over_3MB. split; [reflexivity | apply buffer_length_zeros; lia].
Qed.

Lemma jpeg_1MB_in_range : in_range (buffer_length jpeg_1MB) = true.
Proof. unfold jpeg_1MB. rewrite buffer_length_zeros by lia. reflexivity. Qed.

(** ** Range of the returned image *)

(** C1: whatever the codec returns, a response that carries an image carries
    one whose size lies in [MIN_SIZE, MAX_SIZE]; and when the loop is left
    with a last buffer outside that window, the response is the status 500
    error of the final validation and carries no image. *)
Theorem returned_image_in_range sharp_jpeg ctx png :
  (forall jpg,
     returned_image (response (generateImage sharp_jpeg ctx png)) = Some jpg ->
     MIN_SIZE <= buffer_length jpg <= MAX_SIZE) /\
  (forall v jpg,
     snd (convert_loop sharp_jpeg png MAX_ITER initial_vars) = Finished v ->
     jpgBuffer v = Some jpg ->
     ~ (MIN_SIZE <= buffer_length jpg <= MAX_SIZE) ->
     status (response (generateImage sharp_jpeg ctx png)) = 500 /\
     returned_image (response (generateImage sharp_jpeg ctx png)) = None /\
     jget "error" (body (response (generateImage sharp_jpeg ctx png))) =
       Some (JStr "Failed to generate image within 1–3 MB size constraints")).
Proof.
  destruct (generateImage_cases sharp_jpeg ctx png) as [_ Hcases]. cbv zeta in Hcases.
  split.
  - intros jpg Himg.
    destruct Hcases as [[Hr _] | [(v & jpg' & _ & _ & _ & Hr & _)
                                 | (v & jpg' & _ & _ & Hin & Hr & _)]];
      rewrite Hr in Himg; try discriminate Himg.
    simpl in Himg. inversion Himg; subst jpg'.
    apply in_range_true. exact Hin.
  - intros v jpg Hrun Hjpg Hout. rewrite Hrun in Hcases.
    destruct Hcases as [[_ [_ [Ht | (v' & Hf & Hn)]]]
                       | [(v' & jpg' & _ & _ & _ & Hr & _)
                         | (v' & jpg' & Hf & Hjpg' & Hin & _)]].
    + discriminate Ht.
    + inversion Hf; subst v'. congruence.
    + rewrite Hr. split; [reflexivity | split; reflexivity].
    + inversion Hf; subst v'. rewrite Hjpg in Hjpg'. inversion Hjpg'; subst jpg'.
      apply in_range_true in Hin. contradiction.
Qed.

(** C1, at a 1 MB result of the first encode and at a codec whose results
    are all empty. *)
Lemma returned_image_in_range_witness :
  (MIN_SIZE <= buffer_length jpeg_1MB <= MAX_SIZE) /\
  status (response (generateImage always_empty sample_context [])) = 500.
Proof.
  split.
  - apply (proj1 (returned_image_in_range always_1MB sample_context [])).
    rewrite (generateImage_first_in_range always_1MB sample_context [] jpeg_1MB);
      [reflexivity | reflexivity | exact jpeg_1MB_in_range].
  - apply (proj2 (returned_image_in_range always_empty sample_context [])
             (mkVars (Some []) 9050 98) []).
    + vm_compute. reflexivity.
    + reflexivity.
    + unfold MIN_SIZE, buffer_length. simpl. lia.
Defined.

(** ** Bounds on the parameters *)

(** C3: every encode call of a request is made with a quality between 80
    and 98 and a width of at least 2000, and the loop variables are within
    the same limits when the loop is left.  The two floors hold after the
    adjustments of an iteration whatever the parameters and the size were,
    since the safety limits run last. *)
Theorem parameters_within_limits sharp_jpeg ctx png :
  Forall (fun a => 2000 <= att_width a /\ 80 <= att_quality a <= 98)
         (attempts (generateImage sharp_jpeg ctx png)) /\
  match snd (convert_loop sharp_jpeg png MAX_ITER initial_vars) with
  | Finished v => 2000 <= width v /\ 80 <= quality v <= 98
  | Thrown => True
  end /\
  (forall size w q,
     2000 <= fst (adjust size (w, q)) /\ 80 <= snd (adjust size (w, q))).
Proof.
  split; [| split].
  - eapply Forall_impl; [| apply generateImage_attempts_ok].
    intros a [Hw Hq]. lia.
  - destruct (convert_loop sharp_jpeg png MAX_ITER initial_vars) as [tr e] eqn:Hrun.
    destruct (loop_params_ok _ _ _ _ _ _ Hrun initial_vars_ok) as [_ He].
    simpl. destruct e as [|v]; [exact I |].
    destruct He as [Hw Hq]. lia.
  - intros size w q. unfold adjust.
    destruct (too_big size (too_small size (w, q))) as [w1 q1].
    unfold safety_limits; simpl.
    destruct (Z.ltb_spec w1 2000); destruct (Z.ltb_spec q1 80); lia.
Qed.

(** C9: the quality of every encode call lies between 82 and 98; after the
    adjustments of an iteration and before its safety limits the quality is
    still 82 or more, so the limit at 80 never changes it; and the quality
    variable lies between 82 and 98 when the loop is left. *)
Theorem quality_never_below_82 sharp_jpeg ctx png :
  Forall (fun a =>
            82 <= att_quality a <= 98 /\
            match att_size a with
            | Some size =>
                let wq := too_big size (too_small size (att_width a, att_quality a)) in
                82 <= snd wq /\ snd (safety_limits wq) = snd wq
            | None => True
            end)
         (attempts (generateImage sharp_jpeg ctx png)) /\
  match snd (convert_loop sharp_jpeg png MAX_ITER initial_vars) with
  | Finished v => 82 <= quality v <= 98
  | Thrown => True
  end.
Proof.
  split.
  - eapply Forall_impl; [| apply generateImage_attempts_ok].
    intros a Ha. split; [exact (proj2 Ha) |].
    destruct (att_size a) as [size|]; [| exact I].
    pose proof (quality_before_limits size _ _ Ha) as Hq.
    cbv zeta.
    destruct (too_big size (too_small size (att_width a, att_quality a))) as [w' q'].
    simpl in *. split; [lia |].
    destruct (Z.ltb_spec q' 80); [lia | reflexivity].
  - destruct (convert_loop sharp_jpeg png MAX_ITER initial_vars) as [tr e] eqn:Hrun.
    destruct (loop_params_ok _ _ _ _ _ _ Hrun initial_vars_ok) as [_ He].
    simpl. destruct e as [|v]; [exact I | exact (proj2 He)].
Qed.

(** ** Direction of the adjustments *)

(** C4: when the encode call number i returns a size below MIN_SIZE, the
    call number i+1 is made with a width and a quality that are not smaller
    (the width 250 more, the quality 2 more but at most 98). *)
Theorem undersized_never_shrinks sharp_jpeg ctx png i a b size :
  nth_error (attempts (generateImage sharp_jpeg ctx png)) i = Some a ->
  nth_error (attempts (generateImage sharp_jpeg ctx png)) (S i) = Some b ->
  att_size a = Some size ->
  size < MIN_SIZE ->
  att_width a <= att_width b /\
  att_quality a <= att_quality b <= 98 /\
  att_width b = att_width a + 250 /\
  att_quality b = Z.min (att_quality a + 2) 98.
Proof.
  intros Ha Hb Hsize Hsmall.
  destruct (generateImage_consecutive _ _ _ _ _ _ Ha Hb) as [Hok (size' & Hs & _ & Hadj)].
  rewrite Hsize in Hs. inversion Hs; subst size'.
  rewrite (adjust_undersized _ _ _ Hok Hsmall) in Hadj.
  inversion Hadj. destruct Hok as [Hw Hq]. lia.
Qed.

(** C4, at the first two encode calls of a request whose encodes are all
    empty. *)
Lemma undersized_never_shrinks_witness :
  let tr := attempts (generateImage always_empty sample_context []) in
  let a := mkAttempt 2800 94 (Some 0) in
  let b := mkAttempt 3050 96 (Some 0) in
  nth_error tr 0 = Some a /\ nth_error tr 1 = Some b /\
  (att_width a <= att_width b /\
   att_quality a <= att_quality b <= 98 /\
   att_width b = att_width a + 250 /\
   att_quality b = Z.min (att_quality a + 2) 98).
Proof.
  cbv zeta.
  assert (H0 : nth_error (attempts (generateImage always_empty sample_context [])) 0
               = Some (mkAttempt 2800 94 (Some 0))) by (vm_compute; reflexivity).
  assert (H1 : nth_error (attempts (generateImage always_empty sample_context [])) 1
               = Some (mkAttempt 3050 96 (Some 0))) by (vm_compute; reflexivity).
  split; [exact H0 | split; [exact H1 |]].
  apply (undersized_never_shrinks always_empty sample_context [] 0 _ _ 0 H0 H1).
  - reflexivity.
  - unfold MIN_SIZE. lia.
Defined.

(** C5: when an encode call returns a size above MAX_SIZE, the statement for
    sizes below MIN_SIZE changes nothing, and the one for sizes above
    MAX_SIZE lowers the quality by 4 and leaves the width alone if the
    quality exceeds 85; otherwise it lowers the width by 250 and leaves the
    quality alone.  With a quality above 85 the whole iteration changes
    nothing else; with a quality of 85 or less the safety limits that follow
    keep the lowered width at 2000 or more and leave the quality as it is.
    The next encode call, if there is one, is made with the parameters the
    iteration ends with. *)
Theorem oversized_quality_before_width sharp_jpeg ctx png i a size :
  nth_error (attempts (generateImage sharp_jpeg ctx png)) i = Some a ->
  att_size a = Some size ->
  MAX_SIZE < size ->
  too_small size (att_width a, att_quality a) = (att_width a, att_quality a) /\
  (85 < att_quality a ->
     too_big size (att_width a, att_quality a) = (att_width a, att_quality a - 4) /\
     adjust size (att_width a, att_quality a) = (att_width a, att_quality a - 4)) /\
  (att_quality a <= 85 ->
     too_big size (att_width a, att_quality a) = (att_width a - 250, att_quality a) /\
     adjust size (att_width a, att_quality a) =
       (Z.max (att_width a - 250) 2000, att_quality a)) /\
  (forall b,
     nth_error (attempts (generateImage sharp_jpeg ctx png)) (S i) = Some b ->
     (att_width b, att_quality b) = adjust size (att_width a, att_quality a)).
Proof.
  intros Ha Hsize Hbig.
  assert (Hok : attempt_ok a).
  { pose proof (generateImage_attempts_ok sharp_jpeg ctx png) as Hall.
    rewrite Forall_forall in Hall. apply Hall. eapply nth_error_In; eauto. }
  pose proof (adjust_oversized _ _ _ Hok Hbig) as Hover.
  rewrite Z.gtb_ltb in Hover.
  assert (Hblock : too_big size (att_width a, att_quality a) =
                   if 85 <? att_quality a
                   then (att_width a, att_quality a - 4)
                   else (att_width a - 250, att_quality a)).
  { unfold too_big. rewrite !Z.gtb_ltb.
    apply Z.ltb_lt in Hbig. rewrite Hbig. reflexivity. }
  split; [| split; [| split]].
  - unfold too_small.
    destruct (Z.ltb_spec size MIN_SIZE) as [Hlt | _]; [| reflexivity].
    unfold MIN_SIZE, MAX_SIZE in *. lia.
  - intros Hq. apply Z.ltb_lt in Hq. rewrite Hq in Hover, Hblock. auto.
  - intros Hq. apply Z.ltb_ge in Hq. rewrite Hq in Hover, Hblock. auto.
  - intros b Hb.
    destruct (generateImage_consecutive _ _ _ _ _ _ Ha Hb) as [_ (size' & Hs & _ & Hnext)].
    rewrite Hsize in Hs. inversion Hs; subst size'. exact Hnext.
Qed.

(** C5, at the seventh encode call of a request whose encodes are all one
    byte above 3 MB: the width 2050 is lowered to 1800 and the safety limit
    sets it to 2000. *)
Lemma oversized_quality_before_width_witness :
  let tr := attempts (generateImage always_too_big sample_context []) in
  nth_error tr 6 = Some (mkAttempt 2050 82 (Some 3145729)) /\
  too_small 3145729 (2050, 82) = (2050, 82) /\
  (85 < 82 ->
     too_big 3145729 (2050, 82) = (2050, 82 - 4) /\
     adjust 3145729 (2050, 82) = (2050, 82 - 4)) /\
  (82 <= 85 ->
     too_big 3145729 (2050, 82) = (2050 - 250, 82) /\
     adjust 3145729 (2050, 82) = (Z.max (2050 - 250) 2000, 82)) /\
  (forall b, nth_error tr 7 = Some b ->
     (att_width b, att_quality b) = adjust 3145729 (2050, 82)).
Proof.
  cbv zeta.
  assert (H6 : nth_error (attempts (generateImage always_too_big sample_context [])) 6
               = Some (mkAttempt 2050 82 (Some 3145729))).
  { exact (generateImage_constant_size always_too_big sample_context [] 3145729 6
             eq_refl (always_too_big_size []) ltac:(unfold MAX_ITER; lia)). }
  split; [exact H6 |].
  apply (oversized_quality_before_width always_too_big sample_context [] 6 _ 3145729 H6).
  - reflexivity.
  - unfold MAX_SIZE. lia.
Defined.

(** ** Success on the first iteration *)

(** C6: when the encode at width 2800 and quality 94 returns a buffer whose
    size lies in [MIN_SIZE, MAX_SIZE], the request makes that one encode call
    and answers 200 with that buffer, reporting width 2800 and quality 94. *)
Theorem first_encode_in_range_succeeds sharp_jpeg ctx png jpg :
  sharp_jpeg png 2800 94 = Some jpg ->
  MIN_SIZE <= buffer_length jpg <= MAX_SIZE ->
  let o := generateImage sharp_jpeg ctx png in
  attempts o = [mkAttempt 2800 94 (Some (buffer_length jpg))] /\
  status (response o) = 200 /\
  returned_image (response o) = Some jpg /\
  debug_info "finalWidth" (response o) = Some (JNum 2800) /\
  debug_info "finalQuality" (response o) = Some (JNum 94) /\
  error_log o = [].
Proof.
  intros Henc Hin. apply in_range_true in Hin. cbv zeta.
  rewrite (generateImage_first_in_range _ ctx _ _ Henc Hin).
  repeat split.
Qed.

(** C6, at a codec whose every encode is exactly 1 MB. *)
Lemma first_encode_in_range_succeeds_witness :
  let o := generateImage always_1MB sample_context [] in
  attempts o = [mkAttempt 2800 94 (Some (buffer_length jpeg_1MB))] /\
  status (response o) = 200 /\
  returned_image (response o) = Some jpeg_1MB /\
  debug_info "finalWidth" (response o) = Some (JNum 2800) /\
  debug_info "finalQuality" (response o) = Some (JNum 94) /\
  error_log o = [].
Proof.
  apply (first_encode_in_range_succeeds always_1MB sample_context [] jpeg_1MB).
  - reflexivity.
  - apply in_range_true. exact jpeg_1MB_in_range.
Defined.

(** ** Termination within the iteration budget *)

(** C7: [generateImage] is a total function of the codec and the source, and
    a request makes at most MAX_ITER = 25 encode calls.  When no encode
    within the parameter limits lands in [MIN_SIZE, MAX_SIZE] (a source that
    is still too big at the floors, for one), the request makes exactly 25
    calls and answers with the size-lock error. *)
Theorem search_stops_within_budget sharp_jpeg ctx png :
  MAX_ITER = 25%nat /\
  (List.length (attempts (generateImage sharp_jpeg ctx png)) <= MAX_ITER)%nat /\
  ((forall w q, 2000 <= w -> 80 <= q <= 98 ->
      exists buf, sharp_jpeg png w q = Some buf /\
                  (buffer_length buf < MIN_SIZE \/ MAX_SIZE < buffer_length buf)) ->
   List.length (attempts (generateImage sharp_jpeg ctx png)) = 25%nat /\
   response (generateImage sharp_jpeg ctx png) = size_lock_response /\
   status (response (generateImage sharp_jpeg ctx png)) = 500).
Proof.
  split; [reflexivity |].
  destruct (generateImage_cases sharp_jpeg ctx png) as [Htr Hcases].
  split.
  - rewrite Htr.
    destruct (convert_loop sharp_jpeg png MAX_ITER initial_vars) as [tr e] eqn:Hrun.
    exact (loop_attempts_bound _ _ _ _ _ _ Hrun).
  - intros Hnone.
    destruct (loop_exhausted sharp_jpeg png MAX_ITER) with (v := initial_vars)
      as (tr & v' & Hrun & Hlen & Hlast).
    { intros w q [Hw Hq].
      destruct (Hnone w q Hw ltac:(lia)) as [buf [Henc Hout]].
      exists buf. split; [exact Henc | apply in_range_false; exact Hout]. }
    { exact initial_vars_ok. }
    destruct Hlast as [jpg [Hjpg Hout]]; [discriminate |].
    rewrite Htr, Hrun. split; [exact Hlen |].
    rewrite Hrun in Hcases. simpl in Hcases.
    destruct Hcases as [[_ [_ [Ht | (v & Hf & Hn)]]]
                       | [(v & jpg' & Hf & Hjpg' & _ & Hr & _)
                         | (v & jpg' & Hf & Hjpg' & Hin & _)]].
    + discriminate Ht.
    + inversion Hf; subst v. congruence.
    + rewrite Hr. split; reflexivity.
    + inversion Hf; subst v. congruence.
Qed.

(** C7, at a codec whose every encode is one byte above 3 MB. *)
Lemma search_stops_within_budget_witness :
  List.length (attempts (generateImage always_too_big sample_context [])) = 25%nat /\
  response (generateImage always_too_big sample_context []) = size_lock_response /\
  status (response (generateImage always_too_big sample_context [])) = 500.
Proof.
  apply (search_stops_within_budget always_too_big sample_context []).
  intros w q _ _. destruct (always_too_big_size [] w q) as [buf [Henc Hlen]].
  exists buf. split; [exact Henc | right; rewrite Hlen; unfold MAX_SIZE; lia].
Defined.

(** ** Parameters reported on success *)

(** C10: a 200 response carries the buffer returned by the last encode call
    of the request, and the [finalWidth] and [finalQuality] it reports are
    the width and quality that call was made with. *)
Theorem reported_parameters_are_those_encoded sharp_jpeg ctx png :
  status (response (generateImage sharp_jpeg ctx png)) = 200 ->
  exists jpg w q earlier,
    returned_image (response (generateImage sharp_jpeg ctx png)) = Some jpg /\
    debug_info "finalWidth" (response (generateImage sharp_jpeg ctx png)) = Some (JNum w) /\
    debug_info "finalQuality" (response (generateImage sharp_jpeg ctx png)) = Some (JNum q) /\
    sharp_jpeg png w q = Some jpg /\
    attempts (generateImage sharp_jpeg ctx png) =
      earlier ++ [mkAttempt w q (Some (buffer_length jpg))].
Proof.
  intros Hst.
  destruct (generateImage_cases sharp_jpeg ctx png)
    as [Htr [[Hr _] | [(v & jpg & _ & _ & _ & Hr & _)
                      | (v & jpg & Hrun & Hjpg & Hin & Hr & _)]]];
    rewrite Hr in Hst; try discriminate Hst.
  destruct (convert_loop sharp_jpeg png MAX_ITER initial_vars) as [tr e] eqn:Hloop.
  simpl in Hrun, Htr. subst e.
  destruct (loop_exit_in_range _ _ _ _ _ _ _ Hloop I Hjpg Hin) as [Henc [earlier Hlast]].
  exists jpg, (width v), (quality v), earlier.
  rewrite Hr, Htr. repeat split; assumption.
Qed.

(** C10, at a codec whose every encode is exactly 1 MB. *)
Lemma reported_parameters_are_those_encoded_witness :
  status (response (generateImage always_1MB sample_context [])) = 200 /\
  exists jpg w q earlier,
    returned_image (response (generateImage always_1MB sample_context [])) = Some jpg /\
    debug_info "finalWidth" (response (generateImage always_1MB sample_context [])) = Some (JNum w) /\
    debug_info "finalQuality" (response (generateImage always_1MB sample_context [])) = Some (JNum q) /\
    always_1MB [] w q = Some jpg /\
    attempts (generateImage always_1MB sample_context []) =
      earlier ++ [mkAttempt w q (Some (buffer_length jpg))].
Proof.
  assert (H : status (response (generateImage always_1MB sample_context [])) = 200).
  { rewrite (generateImage_first_in_range always_1MB sample_context [] jpeg_1MB);
      [reflexivity | reflexivity | exact jpeg_1MB_in_range]. }
  split; [exact H |].
  exact (reported_parameters_are_those_encoded always_1MB sample_context [] H).
Defined.

(** ** The failure of the size lock *)

(** A loop that is left normally after at least one call holds, in
    [jpgBuffer], the buffer returned by its last call. *)
Lemma loop_exit_last sharp_jpeg png (n : nat) : forall v tr v',
  convert_loop sharp_jpeg png n v = (tr, Finished v') ->
  (tr = [] /\ v' = v) \/
  exists earlier a jpg,
    tr = earlier ++ [a] /\ jpgBuffer v' = Some jpg /\
    att_size a = Some (buffer_length jpg) /\
    sharp_jpeg png (att_width a) (att_quality a) = Some jpg.
Proof.
  induction n as [|n IH]; intros v tr v' H.
  - inversion H; subst. left. auto.
  - simpl in H.
    destruct (sharp_jpeg png (width v) (quality v)) as [buf|] eqn:Henc;
      [| inversion H].
    destruct (in_range (buffer_length buf)) eqn:Hin.
    + inversion H; subst. right.
      exists [], (mkAttempt (width v) (quality v) (Some (buffer_length buf))), buf.
      simpl. auto.
    + destruct (adjust (buffer_length buf) (width v, quality v)) as [w' q'].
      destruct (convert_loop sharp_jpeg png n (mkVars (Some buf) w' q'))
        as [rest e] eqn:Hloop.
      inversion H; subst. right.
      destruct (IH _ _ _ Hloop) as [[-> ->] | (earlier & a & jpg & -> & Hjpg & Hs & He)].
      * exists [], (mkAttempt (width v) (quality v) (Some (buffer_length buf))), buf.
        simpl. auto.
      * exists (mkAttempt (width v) (quality v) (Some (buffer_length buf)) :: earlier),
          a, jpg.
        simpl. auto.
Qed.

(** C2 (as amended): when the loop is left with a last buffer outside the
    window, the response is status 500 with a body that holds an error
    message and nothing else; the response differs from the one sent when an
    encode call throws (as it does on a source that cannot be decoded); and
    one report is written to the error log, whose size is the size, in MB
    with two decimals, of what the last encode call of the request
    returned. *)
Theorem size_lock_failure_is_message_only sharp_jpeg ctx png v jpg :
  snd (convert_loop sharp_jpeg png MAX_ITER initial_vars) = Finished v ->
  jpgBuffer v = Some jpg ->
  in_range (buffer_length jpg) = false ->
  response (generateImage sharp_jpeg ctx png) =
    mkResponse 500
      (JObj [("error", JStr "Failed to generate image within 1–3 MB size constraints")]) /\
  (exists r earlier a size,
     error_log (generateImage sharp_jpeg ctx png) = [r] /\
     attempts (generateImage sharp_jpeg ctx png) = earlier ++ [a] /\
     sharp_jpeg png (att_width a) (att_quality a) = Some jpg /\
     att_size a = Some size /\
     size = buffer_length jpg /\
     sizeMB r = toFixed2_MB size) /\
  (forall png',
     snd (convert_loop sharp_jpeg png' MAX_ITER initial_vars) = Thrown ->
     response (generateImage sharp_jpeg ctx png') =
       mkResponse 500 (JObj [("error", JStr "Failed to generate image.")]) /\
     error_log (generateImage sharp_jpeg ctx png') = [] /\
     response (generateImage sharp_jpeg ctx png) <>
       response (generateImage sharp_jpeg ctx png')).
Proof.
  intros Hrun Hjpg Hout.
  assert (Hr : response (generateImage sharp_jpeg ctx png) = size_lock_response /\
               error_log (generateImage sharp_jpeg ctx png) =
                 [mkSizeLockReport (toFixed2_MB (buffer_length jpg))
                    (width v) (quality v) 1 3]).
  { destruct (generateImage_cases sharp_jpeg ctx png)
      as [_ [[_ [_ [Ht | (v' & Hf & Hn)]]]
            | [(v' & jpg' & Hf & Hjpg' & _ & Hr & Hlog)
              | (v' & jpg' & Hf & Hjpg' & Hin & _)]]].
    - congruence.
    - rewrite Hrun in Hf. inversion Hf; subst v'. congruence.
    - rewrite Hrun in Hf. inversion Hf; subst v'.
      rewrite Hjpg in Hjpg'. inversion Hjpg'; subst jpg'. auto.
    - rewrite Hrun in Hf. inversion Hf; subst v'.
      rewrite Hjpg in Hjpg'. inversion Hjpg'; subst jpg'. congruence. }
  destruct Hr as [Hr Hlog]. rewrite Hr, Hlog.
  split; [reflexivity |].
  split.
  { destruct (generateImage_cases sharp_jpeg ctx png) as [Htr _]. rewrite Htr.
    destruct (convert_loop sharp_jpeg png MAX_ITER initial_vars) as [tr e] eqn:Hloop.
    simpl in Hrun. subst e.
    destruct (loop_exit_last _ _ _ _ _ _ Hloop)
      as [[_ Hv] | (earlier & a & jpg' & Htr' & Hjpg' & Hs & He)].
    - subst v. discriminate Hjpg.
    - rewrite Hjpg in Hjpg'. inversion Hjpg'; subst jpg'.
      exists (mkSizeLockReport (toFixed2_MB (buffer_length jpg)) (width v) (quality v) 1 3),
        earlier, a, (buffer_length jpg).
      simpl. repeat (split; [first [reflexivity | assumption] |]). reflexivity. }
  intros png' Hthrown.
  assert (Hr' : response (generateImage sharp_jpeg ctx png') = catch_response /\
                error_log (generateImage sharp_jpeg ctx png') = []).
  { destruct (generateImage_cases sharp_jpeg ctx png')
      as [_ [[Hc [Hl _]] | [(v' & jpg' & Hf & _) | (v' & jpg' & Hf & _)]]];
      [auto | congruence | congruence]. }
  destruct Hr' as [Hr' Hlog']. rewrite Hr', Hlog'.
  repeat split. discriminate.
Qed.

(** C2, at a request whose encodes are all empty. *)
Lemma size_lock_failure_is_message_only_witness :
  snd (convert_loop always_empty [] MAX_ITER initial_vars)
    = Finished (mkVars (Some []) 9050 98) /\
  response (generateImage always_empty sample_context []) =
    mkResponse 500
      (JObj [("error", JStr "Failed to generate image within 1–3 MB size constraints")]) /\
  exists r earlier a size,
    error_log (generateImage always_empty sample_context []) = [r] /\
    attempts (generateImage always_empty sample_context []) = earlier ++ [a] /\
    always_empty [] (att_width a) (att_quality a) = Some [] /\
    att_size a = Some size /\
    size = buffer_length [] /\
    sizeMB r = toFixed2_MB size.
Proof.
  assert (H : snd (convert_loop always_empty [] MAX_ITER initial_vars)
              = Finished (mkVars (Some []) 9050 98)) by (vm_compute; reflexivity).
  split; [exact H |].
  destruct (size_lock_failure_is_message_only always_empty sample_context [] _ []
              H eq_refl eq_refl) as [Hr [Hlog _]].
  split; [exact Hr | exact Hlog].
Defined.

(** C2 as stated fails: the failure response carries no size, width or
    quality.  A request whose encodes are all empty makes 25 calls, the last
    at width 8800 and quality 98 with a result of 0 bytes; the body of its
    response is the error message alone.  (The report in the error log holds
    the variables as the last iteration left them, 9050 and 98.) *)
Lemma size_lock_failure_counterexample :
  let o := generateImage always_empty sample_context [] in
  List.length (attempts o) = 25%nat /\
  nth_error (attempts o) 24 = Some (mkAttempt 8800 98 (Some 0)) /\
  response o =
    mkResponse 500
      (JObj [("error", JStr "Failed to generate image within 1–3 MB size constraints")]) /\
  jget "sizeBytes" (body (response o)) = None /\
  jget "width" (body (response o)) = None /\
  jget "quality" (body (response o)) = None /\
  error_log o = [mkSizeLockReport 0 9050 98 1 3].
Proof.
  vm_compute. repeat split.
Qed.

(** ** Determinism *)

(** The functional handler is one run of the relational one, for the
    relation of its codec. *)
Lemma convert_loop_runs sharp_jpeg png (n : nat) : forall v,
  loop_runs (graph_of sharp_jpeg) png n v
    (fst (convert_loop sharp_jpeg png n v)) (snd (convert_loop sharp_jpeg png n v)).
Proof.
  induction n as [|n IH]; intros v; simpl.
  - constructor.
  - destruct (sharp_jpeg png (width v) (quality v)) as [buf|] eqn:Henc.
    + destruct (in_range (buffer_length buf)) eqn:Hin.
      * simpl. apply runs_break; assumption.
      * destruct (adjust (buffer_length buf) (width v, quality v)) as [w' q'] eqn:Hadj.
        specialize (IH (mkVars (Some buf) w' q')).
        destruct (convert_loop sharp_jpeg png n (mkVars (Some buf) w' q')) as [rest e].
        simpl in *. eapply runs_next; eauto.
    + simpl. apply runs_throw. exact Henc.
Qed.

Lemma generateImage_runs sharp_jpeg ctx png :
  handler_runs (graph_of sharp_jpeg) ctx png (generateImage sharp_jpeg ctx png).
Proof.
  pose proof (convert_loop_runs sharp_jpeg png MAX_ITER initial_vars) as Hruns.
  unfold generateImage.
  destruct (convert_loop sharp_jpeg png MAX_ITER initial_vars) as [tr [|v]];
    simpl in Hruns.
  - apply handler_throws. exact Hruns.
  - pose proof (handler_returns _ ctx png tr v Hruns) as H.
    destruct (final_validation ctx png v) as [resp log]. exact H.
Qed.

Section Determinism.

Variable Enc : Buffer -> Z -> Z -> option Buffer -> Prop.
Variable png : Buffer.

(** On the source [png], the result of an encode call is determined by the
    width and the quality. *)
Hypothesis Enc_functional :
  forall w q r1 r2, Enc png w q r1 -> Enc png w q r2 -> r1 = r2.

Lemma loop_runs_functional n v tr1 e1 :
  loop_runs Enc png n v tr1 e1 ->
  forall tr2 e2, loop_runs Enc png n v tr2 e2 -> tr1 = tr2 /\ e1 = e2.
Proof.
  induction 1 as [v | n v He | n v buf He Hin
                 | n v buf w' q' rest exit He Hout Hadj Hrest IH];
    intros tr2 e2 H2; inversion H2; subst;
    try (split; reflexivity);
    match goal with
    | Ha : Enc png ?w ?q ?r, Hb : Enc png ?w ?q ?r' |- _ =>
        pose proof (Enc_functional _ _ _ _ Ha Hb) as Heq;
        try discriminate Heq; inversion Heq; subst
    end;
    try congruence.
  - split; reflexivity.
  - match goal with
    | Ha : adjust _ _ = (w', q'), Hb : adjust _ _ = _ |- _ =>
        rewrite Ha in Hb; inversion Hb; subst
    end.
    match goal with
    | Hr : loop_runs Enc png n _ _ _ |- _ => destruct (IH _ _ Hr) as [-> ->]
    end.
    split; reflexivity.
Qed.

Lemma handler_runs_functional ctx o1 o2 :
  handler_runs Enc ctx png o1 -> handler_runs Enc ctx png o2 -> o1 = o2.
Proof.
  intros H1 H2. destruct H1 as [tr1 H1 | tr1 v1 H1]; destruct H2 as [tr2 H2 | tr2 v2 H2];
    destruct (loop_runs_functional _ _ _ _ H1 _ _ H2) as [Htr He];
    try discriminate He; subst.
  - reflexivity.
  - inversion He; subst. reflexivity.
Qed.

End Determinism.

(** C8: with a codec whose result on the source is determined by the width
    and the quality, two runs of the handler on the same request make the
    same sequence of encode calls with the same results, send the same
    response and write the same error log. *)
Theorem search_is_deterministic
    (Enc : Buffer -> Z -> Z -> option Buffer -> Prop) ctx png o1 o2 :
  (forall w q r1 r2, Enc png w q r1 -> Enc png w q r2 -> r1 = r2) ->
  handler_runs Enc ctx png o1 ->
  handler_runs Enc ctx png o2 ->
  attempts o1 = attempts o2 /\
  response o1 = response o2 /\
  error_log o1 = error_log o2.
Proof.
  intros Hfun H1 H2.
  rewrite (handler_runs_functional Enc png Hfun ctx o1 o2 H1 H2).
  repeat split.
Qed.

Lemma final_validation_in_range ctx png jpg w q :
  in_range (buffer_length jpg) = true ->
  final_validation ctx png (mkVars (Some jpg) w q) =
    (success_response ctx png jpg w q, []).
Proof.
  intros Hin. unfold final_validation. cbn [jpgBuffer width quality].
  rewrite final_test_in_range, Hin. reflexivity.
Qed.

Lemma handler_runs_success
    (Enc : Buffer -> Z -> Z -> option Buffer -> Prop) ctx png tr jpg w q :
  loop_runs Enc png MAX_ITER initial_vars tr (Finished (mkVars (Some jpg) w q)) ->
  in_range (buffer_length jpg) = true ->
  handler_runs Enc ctx png (mkOutcome (success_response ctx png jpg w q) [] tr).
Proof.
  intros Hloop Hin.
  pose proof (handler_returns Enc ctx png tr _ Hloop) as Hret.
  rewrite (final_validation_in_range ctx png jpg w q Hin) in Hret. exact Hret.
Qed.

(** C8, at two searches.  With a codec whose encodes are empty below the
    width 3300 and 1 MB from there on, the run computed by [generateImage]
    and a run written out call by call (two adjustments, then success at
    width 3300 and quality 98) agree.  With a codec whose encodes are all
    empty, the computed run and the run written out through its 25 calls
    (exhaustion, then the size-lock error) agree. *)
Lemma search_is_deterministic_witness :
  let found :=
    mkOutcome (success_response sample_context [] jpeg_1MB 3300 98) []
      [mkAttempt 2800 94 (Some 0); mkAttempt 3050 96 (Some 0);
       mkAttempt 3300 98 (Some (buffer_length jpeg_1MB))] in
  let exhausted :=
    mkOutcome size_lock_response [mkSizeLockReport 0 9050 98 1 3] calls_when_empty in
  (handler_runs (graph_of empty_below_3300) sample_context [] found /\
   attempts (generateImage empty_below_3300 sample_context []) = attempts found /\
   response (generateImage empty_below_3300 sample_context []) = response found /\
   error_log (generateImage empty_below_3300 sample_context []) = error_log found) /\
  (handler_runs (graph_of always_empty) sample_context [] exhausted /\
   attempts (generateImage always_empty sample_context []) = attempts exhausted /\
   response (generateImage always_empty sample_context []) = response exhausted /\
   error_log (generateImage always_empty sample_context []) = error_log exhausted).
Proof.
  cbv zeta.
  assert (Hfun : forall (f : Buffer -> Z -> Z -> option Buffer) w q r1 r2,
            graph_of f [] w q r1 -> graph_of f [] w q r2 -> r1 = r2).
  { intros f w q r1 r2 Ha Hb. unfold graph_of in Ha, Hb. congruence. }
  split.
  - assert (Hrun : handler_runs (graph_of empty_below_3300) sample_context []
              (mkOutcome (success_response sample_context [] jpeg_1MB 3300 98) []
                 [mkAttempt 2800 94 (Some 0); mkAttempt 3050 96 (Some 0);
                  mkAttempt 3300 98 (Some (buffer_length jpeg_1MB))])).
    { apply handler_runs_success; [| exact jpeg_1MB_in_range].
      apply (runs_next _ _ 24 initial_vars [] 3050 96);
        [reflexivity | reflexivity | reflexivity |].
      apply (runs_next _ _ 23 (mkVars (Some []) 3050 96) [] 3300 98);
        [reflexivity | reflexivity | reflexivity |].
      exact (runs_break _ _ 22 (mkVars (Some []) 3300 98) jpeg_1MB
               eq_refl jpeg_1MB_in_range). }
    split; [exact Hrun |].
    exact (search_is_deterministic (graph_of empty_below_3300) sample_context [] _ _
             (Hfun empty_below_3300)
             (generateImage_runs empty_below_3300 sample_context []) Hrun).
  - assert (Hrun : handler_runs (graph_of always_empty) sample_context []
              (mkOutcome size_lock_response [mkSizeLockReport 0 9050 98 1 3]
                 calls_when_empty)).
    { apply (handler_returns (graph_of always_empty) sample_context []
               calls_when_empty (mkVars (Some []) 9050 98)).
      unfold calls_when_empty, MAX_ITER, initial_vars. cbn [List.map].
      repeat match goal with
             | |- loop_runs _ _ (S ?n) ?v _ _ =>
                 let next := eval vm_compute in (adjust 0 (width v, quality v)) in
                 match next with
                 | (?w', ?q') =>
                     apply (runs_next _ _ n v [] w' q');
                     [reflexivity | reflexivity | reflexivity |]
                 end
             end.
      apply runs_bound. }
    split; [exact Hrun |].
    exact (search_is_deterministic (graph_of always_empty) sample_context [] _ _
             (Hfun always_empty)
             (generateImage_runs always_empty sample_context []) Hrun).
Defined.

(** * Further properties of the conversion loop *)

Section MoreLoopFacts.

Variable sharp_jpeg : Buffer -> Z -> Z -> option Buffer.
Variable pngBuffer : Buffer.

Local Abbreviation loop := (convert_loop sharp_jpeg pngBuffer).

Ltac loop_step H :=
  simpl in H;
  match type of H with
  | context [sharp_jpeg ?p ?w ?q] =>
      let E := fresh "Henc" in
      destruct (sharp_jpeg p w q) as [buf|] eqn:E;
      [ let R := fresh "Hrange" in
        destruct (in_range (buffer_length buf)) eqn:R;
        [ | let A := fresh "Hadj" in
            let L := fresh "Hloop" in
            match type of H with
            | context [adjust ?s ?wq] =>
                destruct (adjust s wq) as [w' q'] eqn:A;
                match type of H with
                | context [convert_loop _ _ ?n ?v'] =>
                    destruct (convert_loop sharp_jpeg p n v') as [rest exit'] eqn:L
                end
            end ]
      | ];
      inversion H; subst; clear H
  end.

(** The size recorded for an encode call is the length of what the codec
    returns at the call's parameters. *)
Lemma loop_attempt_result (n : nat) : forall v tr e i a,
  loop n v = (tr, e) -> nth_error tr i = Some a ->
  att_size a =
    option_map buffer_length (sharp_jpeg pngBuffer (att_width a) (att_quality a)).
Proof.
  induction n as [|n IH]; intros v tr e i a H Ha.
  - inversion H; subst. destruct i; discriminate.
  - loop_step H.
    + destruct i as [|[|i]]; try discriminate.
      simpl in Ha. inversion Ha; subst a. simpl. rewrite Henc. reflexivity.
    + destruct i as [|i].
      * simpl in Ha. inversion Ha; subst a. simpl. rewrite Henc. reflexivity.
      * simpl in Ha. eapply IH; eauto.
    + destruct i as [|[|i]]; try discriminate.
      simpl in Ha. inversion Ha; subst a. simpl. rewrite Henc. reflexivity.
Qed.

(** After an encode call with a result outside the window, another call is
    made unless the iterations are used up. *)
Lemma loop_next_exists (n : nat) : forall v tr e i a size,
  loop n v = (tr, e) -> nth_error tr i = Some a ->
  att_size a = Some size -> in_range size = false ->
  (S i < n)%nat -> exists b, nth_error tr (S i) = Some b.
Proof.
  induction n as [|n IH]; intros v tr e i a size H Ha Hsize Hout Hi; [lia |].
  loop_step H.
  - destruct i as [|[|i]]; try discriminate.
    simpl in Ha. inversion Ha; subst a. simpl in Hsize. congruence.
  - destruct i as [|i].
    + destruct n as [|n]; [lia |].
      simpl in Hloop.
      destruct (sharp_jpeg pngBuffer w' q') as [buf'|].
      * destruct (in_range (buffer_length buf')).
        -- inversion Hloop; subst. simpl. eauto.
        -- destruct (adjust (buffer_length buf') (w', q')) as [w'' q''].
           destruct (convert_loop sharp_jpeg pngBuffer n _) as [rest' e'].
           inversion Hloop; subst. simpl. eauto.
      * inversion Hloop; subst. simpl. eauto.
    + simpl in Ha |- *. eapply IH; eauto. lia.
  - destruct i as [|[|i]]; try discriminate.
    simpl in Ha. inversion Ha; subst a. discriminate.
Qed.

(** The width of the call number i is at most 250 i above the width the
    loop started with. *)
Lemma loop_width_growth (n : nat) : forall v tr e i a,
  loop n v = (tr, e) -> vars_ok v -> nth_error tr i = Some a ->
  att_width a <= width v + 250 * Z.of_nat i.
Proof.
  induction n as [|n IH]; intros v tr e i a H Hv Ha.
  - inversion H; subst. destruct i; discriminate.
  - loop_step H.
    + destruct i as [|[|i]]; try discriminate.
      simpl in Ha. inversion Ha; subst a. simpl. lia.
    + destruct i as [|i].
      * simpl in Ha. inversion Ha; subst a. simpl. lia.
      * simpl in Ha.
        assert (Hv' : vars_ok (mkVars (Some buf) w' q')).
        { pose proof (adjust_params_ok (buffer_length buf) _ _ Hv) as Hok.
          rewrite Hadj in Hok. exact Hok. }
        pose proof (IH _ _ _ _ _ Hloop Hv' Ha) as Hle. cbn [width] in Hle.
        assert (Hw : w' <= width v + 250).
        { destruct Hv as [Hw0 Hq0].
          assert (Hf : fst (adjust (buffer_length buf) (width v, quality v)) = w')
            by (rewrite Hadj; reflexivity).
          rewrite <- Hf. clear Hf Hadj. adjust_arith. }
        lia.
    + destruct i as [|[|i]]; try discriminate.
      simpl in Ha. inversion Ha; subst a. simpl. lia.
Qed.

(** Every quality the loop holds is an even number. *)
Lemma loop_quality_even (n : nat) : forall v tr e,
  loop n v = (tr, e) -> vars_ok v -> Z.even (quality v) = true ->
  Forall (fun a => Z.even (att_quality a) = true) tr.
Proof.
  induction n as [|n IH]; intros v tr e H Hv Hev.
  - inversion H; subst. constructor.
  - loop_step H.
    + constructor; [exact Hev | constructor].
    + constructor; [exact Hev |].
      eapply IH; [exact Hloop | |].
      * pose proof (adjust_params_ok (buffer_length buf) _ _ Hv) as Hok.
        rewrite Hadj in Hok. exact Hok.
      * simpl.
        assert (Hs : snd (adjust (buffer_length buf) (width v, quality v)) = q')
          by (rewrite Hadj; reflexivity).
        rewrite <- Hs. clear Hs Hadj.
        destruct Hv as [Hw0 Hq0].
        apply Z.even_spec in Hev. destruct Hev as [k Hk].
        apply Z.even_spec.
        unfold adjust, safety_limits, too_big, too_small, params_ok,
          MIN_SIZE, MAX_SIZE in *.
        split_tests; simpl.
        all: repeat match goal with
             | |- context [Z.min ?x ?y] =>
                 destruct (Z.min_spec x y) as [[? ->] | [? ->]]
             end.
        all: first [ lia | exists k; lia | exists (k + 1); lia | exists (k - 2); lia
                   | exists 49; lia | exists 40; lia ].
    + constructor; [exact Hev | constructor].
Qed.

(** How the loop can be left by an exception: the last call is the one that
    threw. *)
Lemma loop_exit_thrown (n : nat) : forall v tr,
  loop n v = (tr, Thrown) ->
  exists earlier w q, tr = earlier ++ [mkAttempt w q None].
Proof.
  induction n as [|n IH]; intros v tr H.
  - inversion H.
  - loop_step H.
    + destruct (IH _ _ Hloop) as (earlier & w & q & Htr).
      exists (mkAttempt (width v) (quality v) (Some (buffer_length buf)) :: earlier), w, q.
      rewrite Htr. reflexivity.
    + exists [], (width v), (quality v). reflexivity.
Qed.

(** A loop left without a buffer has made no call. *)
Lemma loop_exit_no_buffer (n : nat) : forall v tr v',
  loop n v = (tr, Finished v') -> jpgBuffer v' = None -> tr = [].
Proof.
  induction n as [|n IH]; intros v tr v' H Hnone.
  - inversion H; reflexivity.
  - loop_step H.
    + simpl in Hnone. discriminate.
    + destruct n as [|n].
      * simpl in Hloop. inversion Hloop; subst. simpl in Hnone. discriminate.
      * pose proof (IH _ _ _ Hloop Hnone) as Hrest. subst rest.
        simpl in Hloop.
        destruct (sharp_jpeg pngBuffer w' q') as [buf'|]; [| inversion Hloop].
        destruct (in_range (buffer_length buf')); [inversion Hloop |].
        destruct (adjust (buffer_length buf') (w', q')) as [w'' q''].
        destruct (convert_loop sharp_jpeg pngBuffer n _) as [rest' e'].
        inversion Hloop.
Qed.

(** A loop with an iteration left makes a call with the parameters it
    starts with. *)
Lemma loop_first_exists (n : nat) (v : Vars) tr e :
  loop (S n) v = (tr, e) ->
  exists a, nth_error tr 0 = Some a /\
            att_width a = width v /\ att_quality a = quality v.
Proof.
  intros H. loop_step H; simpl; eauto.
Qed.

End MoreLoopFacts.

Lemma generateImage_attempts_length sharp_jpeg ctx png :
  (List.length (attempts (generateImage sharp_jpeg ctx png)) <= 25)%nat.
Proof.
  destruct (generateImage_cases sharp_jpeg ctx png) as [Htr _]. rewrite Htr.
  destruct (convert_loop sharp_jpeg png MAX_ITER initial_vars) as [tr e] eqn:Hrun.
  exact (loop_attempts_bound _ _ _ _ _ _ Hrun).
Qed.

Lemma generateImage_first_attempt sharp_jpeg ctx png :
  exists a, nth_error (attempts (generateImage sharp_jpeg ctx png)) 0 = Some a /\
            att_width a = 2800 /\ att_quality a = 94.
Proof.
  destruct (generateImage_cases sharp_jpeg ctx png) as [Htr _]. rewrite Htr.
  destruct (convert_loop sharp_jpeg png MAX_ITER initial_vars) as [tr e] eqn:Hrun.
  exact (loop_first_exists _ _ _ _ _ _ Hrun).
Qed.

Lemma generateImage_attempt_result sharp_jpeg ctx png i a :
  nth_error (attempts (generateImage sharp_jpeg ctx png)) i = Some a ->
  att_size a = option_map buffer_length (sharp_jpeg png (att_width a) (att_quality a)).
Proof.
  destruct (generateImage_cases sharp_jpeg ctx png) as [Htr _]. rewrite Htr.
  destruct (convert_loop sharp_jpeg png MAX_ITER initial_vars) as [tr e] eqn:Hrun.
  intros Ha. exact (loop_attempt_result _ _ _ _ _ _ _ _ Hrun Ha).
Qed.

Lemma generateImage_next_exists sharp_jpeg ctx png i a size :
  nth_error (attempts (generateImage sharp_jpeg ctx png)) i = Some a ->
  att_size a = Some size -> in_range size = false -> (S i < 25)%nat ->
  exists b, nth_error (attempts (generateImage sharp_jpeg ctx png)) (S i) = Some b.
Proof.
  destruct (generateImage_cases sharp_jpeg ctx png) as [Htr _]. rewrite Htr.
  destruct (convert_loop sharp_jpeg png MAX_ITER initial_vars) as [tr e] eqn:Hrun.
  intros Ha Hsize Hout Hi.
  exact (loop_next_exists _ _ _ _ _ _ _ _ _ Hrun Ha Hsize Hout Hi).
Qed.

(** A request whose last encode call returned a size outside the window is
    answered with the size-lock error. *)
Lemma generateImage_last_out_of_range sharp_jpeg ctx png earlier a size :
  attempts (generateImage sharp_jpeg ctx png) = earlier ++ [a] ->
  att_size a = Some size -> in_range size = false ->
  response (generateImage sharp_jpeg ctx png) = size_lock_response.
Proof.
  intros Htr Hsize Hout.
  destruct (generateImage_cases sharp_jpeg ctx png) as [Hfst Hcases].
  cbv zeta in Hfst, Hcases.
  destruct (convert_loop sharp_jpeg png MAX_ITER initial_vars) as [tr e] eqn:Hrun.
  simpl in Hfst, Hcases. rewrite Htr in Hfst. subst tr.
  destruct Hcases as [[_ [_ [Ht | (v & Hf & Hn)]]]
                     | [(v & jpg & _ & _ & _ & Hr & _)
                       | (v & jpg & Hf & Hjpg & Hin & _)]].
  - subst e. destruct (loop_exit_thrown _ _ _ _ _ Hrun) as (earlier' & w & q & Heq).
    apply app_inj_tail in Heq. destruct Heq as [_ Heq]. subst a. discriminate.
  - subst e. pose proof (loop_exit_no_buffer _ _ _ _ _ _ Hrun Hn) as Hnil.
    destruct earlier; discriminate.
  - exact Hr.
  - subst e.
    destruct (loop_exit_in_range _ _ _ _ _ _ _ Hrun I Hjpg Hin) as [_ [earlier' Heq]].
    apply app_inj_tail in Heq. destruct Heq as [_ Heq]. subst a.
    simpl in Hsize. inversion Hsize; subst size. congruence.
Qed.

(** ** Bounds on the width *)

(** X1: no encode call is made at a width above 8800, which is the start
    width plus 24 steps of 250; the call number i (from 0) is made at a
    width of at most 2800 + 250 i. *)
Theorem encode_width_at_most_8800 sharp_jpeg ctx png :
  Forall (fun a => 2000 <= att_width a <= 8800)
         (attempts (generateImage sharp_jpeg ctx png)) /\
  (forall i a,
     nth_error (attempts (generateImage sharp_jpeg ctx png)) i = Some a ->
     att_width a <= 2800 + 250 * Z.of_nat i).
Proof.
  assert (Hgrow : forall i a,
            nth_error (attempts (generateImage sharp_jpeg ctx png)) i = Some a ->
            att_width a <= 2800 + 250 * Z.of_nat i).
  { intros i a Ha.
    destruct (generateImage_cases sharp_jpeg ctx png) as [Htr _]. rewrite Htr in Ha.
    destruct (convert_loop sharp_jpeg png MAX_ITER initial_vars) as [tr e] eqn:Hrun.
    exact (loop_width_growth _ _ _ _ _ _ _ _ Hrun initial_vars_ok Ha). }
  split; [| exact Hgrow].
  apply Forall_forall. intros a Hin.
  pose proof (generateImage_attempts_ok sharp_jpeg ctx png) as Hok.
  rewrite Forall_forall in Hok. destruct (Hok a Hin) as [Hw _].
  destruct (In_nth_error _ _ Hin) as [i Hi].
  pose proof (Hgrow i a Hi) as Hle.
  assert (Hlt : (i < List.length (attempts (generateImage sharp_jpeg ctx png)))%nat)
    by (apply nth_error_Some; congruence).
  pose proof (generateImage_attempts_length sharp_jpeg ctx png). lia.
Qed.

(** X2: when every encode returns a size below MIN_SIZE, the request makes
    all 25 calls, the call number i at width 2800 + 250 i and quality
    min (94 + 2 i, 98), so the last one at width 8800, and it is answered
    with the size-lock error. *)
Theorem undersized_throughout sharp_jpeg ctx png :
  (forall w q, exists buf, sharp_jpeg png w q = Some buf /\
                           buffer_length buf < MIN_SIZE) ->
  (forall i, (i < 25)%nat ->
     exists a, nth_error (attempts (generateImage sharp_jpeg ctx png)) i = Some a /\
               att_width a = 2800 + 250 * Z.of_nat i /\
               att_quality a = Z.min (94 + 2 * Z.of_nat i) 98) /\
  List.length (attempts (generateImage sharp_jpeg ctx png)) = 25%nat /\
  response (generateImage sharp_jpeg ctx png) = size_lock_response.
Proof.
  intros Hsmall.
  assert (Hsize : forall i a,
            nth_error (attempts (generateImage sharp_jpeg ctx png)) i = Some a ->
            exists size, att_size a = Some size /\ size < MIN_SIZE).
  { intros i a Ha. rewrite (generateImage_attempt_result _ _ _ _ _ Ha).
    destruct (Hsmall (att_width a) (att_quality a)) as [buf [Henc Hlt]].
    rewrite Henc. simpl. eauto. }
  assert (Hnth : forall i, (i < 25)%nat ->
            exists a, nth_error (attempts (generateImage sharp_jpeg ctx png)) i = Some a /\
              att_width a = 2800 + 250 * Z.of_nat i /\
              att_quality a = Z.min (94 + 2 * Z.of_nat i) 98).
  { induction i as [|i IH]; intros Hi.
    - destruct (generateImage_first_attempt sharp_jpeg ctx png) as (a & Ha & Hw & Hq).
      exists a. rewrite Hw, Hq. simpl. auto.
    - destruct IH as (a & Ha & Hw & Hq); [lia |].
      destruct (Hsize _ _ Ha) as (size & Hs & Hlt).
      assert (Hout : in_range size = false) by (apply in_range_false; auto).
      destruct (generateImage_next_exists _ _ _ _ _ _ Ha Hs Hout Hi) as [b Hb].
      exists b. split; [exact Hb |].
      destruct (generateImage_consecutive _ _ _ _ _ _ Ha Hb)
        as [Hok (size' & Hs' & _ & Hadj)].
      rewrite Hs in Hs'. inversion Hs'; subst size'.
      rewrite (adjust_undersized _ _ _ Hok Hlt) in Hadj. inversion Hadj as [[Hbw Hbq]].
      rewrite Hbw, Hbq, Hw, Hq. split; lia. }
  split; [exact Hnth |].
  destruct (Hnth 24%nat) as (a & Ha & _); [lia |].
  assert (Hlen : List.length (attempts (generateImage sharp_jpeg ctx png)) = 25%nat).
  { pose proof (generateImage_attempts_length sharp_jpeg ctx png).
    assert ((24 < List.length (attempts (generateImage sharp_jpeg ctx png)))%nat)
      by (apply nth_error_Some; congruence).
    lia. }
  split; [exact Hlen |].
  destruct (Hsize _ _ Ha) as (size & Hs & Hlt).
  destruct (nth_error_split _ _ Ha) as (l1 & l2 & Heq & Hl1).
  assert (l2 = []).
  { rewrite Heq, length_app in Hlen. simpl in Hlen. destruct l2; [reflexivity | simpl in Hlen; lia]. }
  subst l2.
  apply (generateImage_last_out_of_range _ _ _ l1 a size Heq Hs).
  apply in_range_false. auto.
Qed.

(** X2, at a request whose encodes are all empty. *)
Lemma undersized_throughout_witness :
  (forall i, (i < 25)%nat ->
     exists a, nth_error (attempts (generateImage always_empty sample_context [])) i = Some a /\
               att_width a = 2800 + 250 * Z.of_nat i /\
               att_quality a = Z.min (94 + 2 * Z.of_nat i) 98) /\
  List.length (attempts (generateImage always_empty sample_context [])) = 25%nat /\
  response (generateImage always_empty sample_context []) = size_lock_response.
Proof.
  apply (undersized_throughout always_empty sample_context []).
  intros w q. exists []. split; [reflexivity | unfold MIN_SIZE, buffer_length; simpl; lia].
Defined.

(** ** The loop at the floor *)

(** X3: once an encode call at the width floor 2000 with a quality of 85 or
    less returns a size above MAX_SIZE, the adjustments change nothing: every
    later call of the request repeats the same parameters and gets the same
    size, and the request is answered with the size-lock error. *)
Theorem stuck_at_the_floor sharp_jpeg ctx png i a size :
  nth_error (attempts (generateImage sharp_jpeg ctx png)) i = Some a ->
  att_width a = 2000 -> att_quality a <= 85 ->
  att_size a = Some size -> MAX_SIZE < size ->
  (forall j, (i <= j < 25)%nat ->
     nth_error (attempts (generateImage sharp_jpeg ctx png)) j = Some a) /\
  response (generateImage sharp_jpeg ctx png) = size_lock_response.
Proof.
  intros Ha Hw Hq Hsize Hbig.
  assert (Hout : in_range size = false) by (apply in_range_false; auto).
  assert (Hrep : forall d, (i + d < 25)%nat ->
            nth_error (attempts (generateImage sharp_jpeg ctx png)) (i + d) = Some a).
  { induction d as [|d IH]; intros Hd.
    - rewrite Nat.add_0_r. exact Ha.
    - specialize (IH ltac:(lia)).
      replace (i + S d)%nat with (S (i + d)) in * by lia.
      destruct (generateImage_next_exists _ _ _ _ _ _ IH Hsize Hout Hd) as [b Hb].
      destruct (generateImage_consecutive _ _ _ _ _ _ IH Hb)
        as [Hok (size' & Hs' & _ & Hadj)].
      rewrite Hsize in Hs'. inversion Hs'; subst size'.
      rewrite (adjust_oversized _ _ _ Hok Hbig), Z.gtb_ltb in Hadj.
      destruct (Z.ltb_spec 85 (att_quality a)) as [Hgt | _]; [lia |].
      inversion Hadj as [[Hbw Hbq]].
      pose proof (generateImage_attempt_result _ _ _ _ _ Hb) as Hres.
      rewrite Hbw, Hbq, Hw in Hres.
      replace (Z.max (2000 - 250) 2000) with (att_width a) in Hres by (rewrite Hw; reflexivity).
      rewrite <- (generateImage_attempt_result _ _ _ _ _ IH) in Hres.
      rewrite Hb. f_equal.
      destruct a as [aw aq asz], b as [bw bq bsz]. simpl in *. subst. reflexivity. }
  split.
  - intros j Hj. replace j with (i + (j - i))%nat by lia. apply Hrep. lia.
  - assert (Hi : (i < 25)%nat).
    { pose proof (generateImage_attempts_length sharp_jpeg ctx png).
      assert ((i < List.length (attempts (generateImage sharp_jpeg ctx png)))%nat)
        by (apply nth_error_Some; congruence).
      lia. }
    assert (H24 : nth_error (attempts (generateImage sharp_jpeg ctx png)) 24 = Some a).
    { replace 24%nat with (i + (24 - i))%nat by lia. apply Hrep. lia. }
    destruct (nth_error_split _ _ H24) as (l1 & l2 & Heq & Hl1).
    assert (l2 = []).
    { pose proof (generateImage_attempts_length sharp_jpeg ctx png) as Hlen.
      rewrite Heq, length_app in Hlen. simpl in Hlen.
      destruct l2; [reflexivity | simpl in Hlen; lia]. }
    subst l2.
    exact (generateImage_last_out_of_range _ _ _ l1 a size Heq Hsize Hout).
Qed.

(** X3, from the eighth encode call of a request whose encodes are all one
    byte above 3 MB. *)
Lemma stuck_at_the_floor_witness :
  let a := mkAttempt 2000 82 (Some 3145729) in
  nth_error (attempts (generateImage always_too_big sample_context [])) 7 = Some a /\
  (forall j, (7 <= j < 25)%nat ->
     nth_error (attempts (generateImage always_too_big sample_context [])) j = Some a) /\
  response (generateImage always_too_big sample_context []) = size_lock_response.
Proof.
  cbv zeta.
  assert (H7 : nth_error (attempts (generateImage always_too_big sample_context [])) 7
               = Some (mkAttempt 2000 82 (Some 3145729))).
  { exact (generateImage_constant_size always_too_big sample_context [] 3145729 7
             eq_refl (always_too_big_size []) ltac:(unfold MAX_ITER; lia)). }
  split; [exact H7 |].
  apply (stuck_at_the_floor always_too_big sample_context [] 7 _ 3145729 H7).
  - reflexivity.
  - simpl. lia.
  - reflexivity.
  - unfold MAX_SIZE. lia.
Defined.

(** ** Where the loop stops *)

(** X4: the loop stops at the first encode call that throws or returns a
    size inside the window: every call that is followed by another one
    returned a size outside [MIN_SIZE, MAX_SIZE]. *)
Theorem only_last_call_can_end_the_loop sharp_jpeg ctx png i a :
  nth_error (attempts (generateImage sharp_jpeg ctx png)) i = Some a ->
  (S i < List.length (attempts (generateImage sharp_jpeg ctx png)))%nat ->
  exists size, att_size a = Some size /\ (size < MIN_SIZE \/ MAX_SIZE < size).
Proof.
  intros Ha Hi.
  destruct (nth_error (attempts (generateImage sharp_jpeg ctx png)) (S i)) as [b|] eqn:Hb.
  - destruct (generateImage_consecutive _ _ _ _ _ _ Ha Hb) as [_ (size & Hs & Hout & _)].
    exists size. split; [exact Hs | apply in_range_false; exact Hout].
  - apply nth_error_None in Hb. lia.
Qed.

(** X4, at the first call of a request whose encodes are all empty. *)
Lemma only_last_call_can_end_the_loop_witness :
  exists size, att_size (mkAttempt 2800 94 (Some 0)) = Some size /\
               (size < MIN_SIZE \/ MAX_SIZE < size).
Proof.
  apply (only_last_call_can_end_the_loop always_empty sample_context [] 0).
  - vm_compute. reflexivity.
  - vm_compute. lia.
Defined.

(** ** What a 200 response reports *)

Lemma toFixed2_MB_in_range (size : Z) :
  MIN_SIZE <= size <= MAX_SIZE -> 100 <= toFixed2_MB size <= 300.
Proof.
  unfold MIN_SIZE, MAX_SIZE, toFixed2_MB. intros [Hlo Hhi]. split.
  - apply Z.div_le_lower_bound; lia.
  - assert (H : (200 * size + 1024 * 1024) / (2 * 1024 * 1024) < 301)
      by (apply Z.div_lt_upper_bound; lia).
    lia.
Qed.

(** X5: in a 200 response, [debugInfo.finalSizeMB] is the size of the
    returned image in MB rounded to two decimals, and it lies between 1.00
    and 3.00. *)
Theorem reported_size_between_1_and_3_MB sharp_jpeg ctx png :
  status (response (generateImage sharp_jpeg ctx png)) = 200 ->
  exists jpg,
    returned_image (response (generateImage sharp_jpeg ctx png)) = Some jpg /\
    debug_info "finalSizeMB" (response (generateImage sharp_jpeg ctx png)) =
      Some (JCenti (toFixed2_MB (buffer_length jpg))) /\
    100 <= toFixed2_MB (buffer_length jpg) <= 300.
Proof.
  intros Hst.
  destruct (generateImage_cases sharp_jpeg ctx png)
    as [_ [[Hr _] | [(v & jpg & _ & _ & _ & Hr & _)
                    | (v & jpg & _ & _ & Hin & Hr & _)]]];
    rewrite Hr in Hst |- *; try discriminate Hst.
  exists jpg. split; [reflexivity | split; [reflexivity |]].
  apply toFixed2_MB_in_range, in_range_true, Hin.
Qed.

(** X5, at a codec whose every encode is exactly 1 MB. *)
Lemma reported_size_between_1_and_3_MB_witness :
  exists jpg,
    returned_image (response (generateImage always_1MB sample_context [])) = Some jpg /\
    debug_info "finalSizeMB" (response (generateImage always_1MB sample_context [])) =
      Some (JCenti (toFixed2_MB (buffer_length jpg))) /\
    100 <= toFixed2_MB (buffer_length jpg) <= 300.
Proof.
  apply (reported_size_between_1_and_3_MB always_1MB sample_context []).
  rewrite (generateImage_first_in_range always_1MB sample_context [] jpeg_1MB);
    [reflexivity | reflexivity | exact jpeg_1MB_in_range].
Defined.

(** X6: the conversion answers with status 200 or 500, and it writes a
    report to the error log exactly when it answers with the size-lock
    error; the log then holds that one report. *)
Theorem report_only_with_size_lock_error sharp_jpeg ctx png :
  (status (response (generateImage sharp_jpeg ctx png)) = 200 \/
   status (response (generateImage sharp_jpeg ctx png)) = 500) /\
  (error_log (generateImage sharp_jpeg ctx png) <> [] <->
   response (generateImage sharp_jpeg ctx png) = size_lock_response) /\
  (List.length (error_log (generateImage sharp_jpeg ctx png)) <= 1)%nat.
Proof.
  destruct (generateImage_cases sharp_jpeg ctx png)
    as [_ [[Hr [Hl _]] | [(v & jpg & _ & _ & _ & Hr & Hl)
                         | (v & jpg & _ & _ & _ & Hr & Hl)]]];
    rewrite Hr, Hl; simpl.
  - split; [right; reflexivity | split; [| lia]].
    split; [intros H; contradiction H; reflexivity | intros H; discriminate H].
  - split; [right; reflexivity | split; [| lia]].
    split; [reflexivity | intros _; discriminate].
  - split; [left; reflexivity | split; [| lia]].
    split; [intros H; contradiction H; reflexivity | intros H; discriminate H].
Qed.

(** ** The qualities used *)

(** X7: every encode call is made with one of the nine even qualities from
    82 to 98; the quality 85 that the loop compares with is never held. *)
Theorem quality_is_even sharp_jpeg ctx png :
  Forall (fun a => In (att_quality a) [82; 84; 86; 88; 90; 92; 94; 96; 98])
         (attempts (generateImage sharp_jpeg ctx png)).
Proof.
  destruct (generateImage_cases sharp_jpeg ctx png) as [Htr _].
  pose proof (generateImage_attempts_ok sharp_jpeg ctx png) as Hok.
  rewrite Htr in *.
  destruct (convert_loop sharp_jpeg png MAX_ITER initial_vars) as [tr e] eqn:Hrun.
  pose proof (loop_quality_even _ _ _ _ _ _ Hrun initial_vars_ok eq_refl) as Hev.
  simpl in *. rewrite Forall_forall in *.
  intros a Hin. specialize (Hok a Hin). specialize (Hev a Hin). simpl in Hev.
  destruct Hok as [_ Hq]. apply Z.even_spec in Hev. destruct Hev as [k Hk].
  rewrite Hk.
  assert (Hcases : k = 41 \/ k = 42 \/ k = 43 \/ k = 44 \/ k = 45 \/
                   k = 46 \/ k = 47 \/ k = 48 \/ k = 49) by lia.
  simpl. intuition (subst k; auto).
Qed.

(** * Properties of the form helpers, the validation and the detection *)

Section FormFacts.

Import Request.

Lemma blank_app (a b : Text) : blank (a ++ b) = blank a && blank b.
Proof. apply forallb_app. Qed.

Lemma blank_rev (s : Text) : blank (List.rev s) = blank s.
Proof.
  induction s as [|c s IH]; [reflexivity |].
  simpl. rewrite blank_app, IH. simpl. rewrite andb_true_r. apply andb_comm.
Qed.

Lemma trimStart_blank (s : Text) : blank (trimStart s) = blank s.
Proof.
  induction s as [|c s IH]; [reflexivity |].
  simpl. destruct (is_white_space c) eqn:Hc; [exact IH |].
  simpl. rewrite Hc. reflexivity.
Qed.

Lemma trimStart_empty (s : Text) : is_empty (trimStart s) = blank s.
Proof.
  induction s as [|c s IH]; [reflexivity |].
  simpl. destruct (is_white_space c); [exact IH | reflexivity].
Qed.

Lemma rev_empty (s : Text) : is_empty (List.rev s) = is_empty s.
Proof.
  destruct s as [|c s]; [reflexivity |].
  simpl. destruct (List.rev s); reflexivity.
Qed.

(** [trim] leaves nothing exactly of the texts that are all white space. *)
Lemma trim_empty (s : Text) : is_empty (trim s) = blank s.
Proof.
  unfold trim, trimEnd.
  rewrite rev_empty, trimStart_empty, blank_rev, trimStart_blank. reflexivity.
Qed.

Lemma blank_join (sep : Text) (l : list Text) :
  blank sep = false ->
  blank (join sep l) = forallb blank l && (List.length l <=? 1)%nat.
Proof.
  intros Hsep. induction l as [|x l IH]; [reflexivity |].
  destruct l as [|y l].
  - simpl. rewrite !andb_true_r. reflexivity.
  - change (join sep (x :: y :: l)) with (x ++ sep ++ join sep (y :: l)).
    rewrite !blank_app, Hsep. simpl.
    rewrite andb_false_r. destruct (blank x), (blank y); simpl;
      rewrite ?andb_false_r; reflexivity.
Qed.

Lemma blank_lit_comma : blank (lit ",") = false.
Proof. reflexivity. Qed.

Lemma blank_lit_comma_space : blank (lit ", ") = false.
Proof. reflexivity. Qed.

Lemma present_text (s : Text) : present (VText s) = negb (blank s).
Proof. unfold present. simpl. rewrite trim_empty. reflexivity. Qed.

Lemma present_list (l : list Text) :
  present (VList l) = (1 <? List.length l)%nat || negb (forallb blank l).
Proof.
  unfold present. simpl to_string. rewrite trim_empty.
  rewrite (blank_join _ l blank_lit_comma).
  destruct l as [|x [|y l]]; simpl; rewrite ?andb_true_r, ?andb_false_r; reflexivity.
Qed.

(** What [present(v) ? v : null] can be. *)
Lemma kept_cases (v : FormValue) :
  (present v = false /\ kept v = VNull) \/
  (present v = true /\ kept v = v /\
   ((exists s, v = VText s /\ blank s = false) \/
    (exists l, v = VList l /\ l <> [] /\ blank (join (lit ", ") l) = false /\
               blank (join (lit ",") l) = false))).
Proof.
  unfold kept. destruct (present v) eqn:Hp; [right | left; auto].
  split; [reflexivity | split; [reflexivity |]].
  destruct v as [| | s | l]; try discriminate Hp.
  - left. exists s. rewrite present_text in Hp.
    split; [reflexivity | destruct (blank s); [discriminate | reflexivity]].
  - right. exists l. rewrite present_list in Hp.
    split; [reflexivity |].
    rewrite (blank_join _ l blank_lit_comma_space), (blank_join _ l blank_lit_comma).
    destruct l as [|x [|y l]]; simpl in *.
    + discriminate.
    + split; [discriminate |]. rewrite !andb_true_r in *.
      destruct (blank x); [discriminate | auto].
    + split; [discriminate |]. rewrite !andb_false_r. auto.
Qed.

Lemma truthy_not_blank (s : Text) : blank s = false -> truthy (VText s) = true.
Proof. destruct s; [discriminate | reflexivity]. Qed.

Lemma truthy_kept (v : FormValue) : truthy (kept v) = present v.
Proof.
  destruct (kept_cases v) as [[Hp Hk] | (Hp & Hk & [(s & -> & Hs) | (l & -> & _)])];
    rewrite Hp, Hk; try reflexivity.
  apply truthy_not_blank, Hs.
Qed.

Lemma kept_present (v : FormValue) : present v = true -> kept v = v.
Proof. unfold kept. intros ->. reflexivity. Qed.

(** [mergeChoice] on kept values: its two middle branches are never
    taken. *)
Lemma mergeChoice_kept (d n : FormValue) (fallback : Text) :
  mergeChoice (kept d) (kept n) fallback =
    if present d then
      VText (join_value (lit ", ") d ++
             (if present n then lit ". Extra note: " ++ to_string n else []))
    else if present n then n
    else VText fallback.
Proof.
  pose proof (truthy_kept n) as Htn. pose proof (kept_present n) as Hkn.
  destruct (kept_cases d) as [[Hp Hk] | (Hp & Hk & [(s & -> & Hs) | (l & -> & Hl & _)])];
    rewrite Hp, Hk; unfold mergeChoice.
  - simpl. rewrite Htn. destruct (present n) eqn:Hn; [apply Hkn; reflexivity | reflexivity].
  - assert (Ha : isArrayPresent (VText s) = true) by exact Hp.
    rewrite Ha, Htn. destruct (present n) eqn:Hn; [rewrite Hkn by reflexivity |]; reflexivity.
  - assert (Ha : isArrayPresent (VList l) = true)
      by (destruct l; [contradiction | reflexivity]).
    rewrite Ha, Htn. destruct (present n) eqn:Hn; [rewrite Hkn by reflexivity |]; reflexivity.
Qed.


(** The phrase of a merged field, as [attrPhrases] computes it from the
    body. *)
Lemma merged_phrase (raw : Fields) k note fallback :
  In (k, note, fallback) merged_fields ->
  field k (attrPhrases (attributes raw)) =
    mergeChoice (kept (field k raw)) (kept (field note raw)) fallback.
Proof.
  intros Hin. simpl in Hin.
  repeat (destruct Hin as [Heq | Hin]; [inversion Heq; subst; reflexivity |]).
  contradiction.
Qed.

(** ** The helpers *)

(** X8: which values count as filled in.  A text does unless all its
    characters are white space; a list does when it has two elements or
    more, or one element that is not all white space; [undefined], [null]
    and the empty list do not.  A list counts for [isArrayPresent] as soon as
    it is not empty, so a list of one blank text is kept as a model
    expression though it would not be kept as any other field. *)
Theorem present_characterised :
  present VUndefined = false /\
  present VNull = false /\
  (forall s, present (VText s) = negb (blank s)) /\
  (forall l, present (VList l) = (1 <? List.length l)%nat || negb (forallb blank l)) /\
  (forall l, isArrayPresent (VList l) = negb (Nat.eqb (List.length l) 0)).
Proof.
  split; [reflexivity | split; [reflexivity |]].
  split; [exact present_text | split; [exact present_list |]].
  intros l. destruct l; reflexivity.
Qed.


(** X10: the phrase of a merged field is the choice (the entries of a list
    joined with ", "), followed by ". Extra note: " and the note when the
    note is filled in; without a choice it is the note as it came, so a note
    sent twice stays a list; without either it is the default. *)
Theorem merged_phrase_cases (raw : Fields) :
  Forall (fun entry =>
            let '(k, note, fallback) := entry in
            field k (attrPhrases (attributes raw)) =
              if present (field k raw) then
                VText (join_value (lit ", ") (field k raw) ++
                       (if present (field note raw)
                        then lit ". Extra note: " ++ to_string (field note raw)
                        else []))
              else if present (field note raw) then field note raw
              else VText fallback)
         merged_fields.
Proof.
  apply Forall_forall. intros [[k note] fallback] Hin.
  rewrite (merged_phrase raw k note fallback Hin).
  apply mergeChoice_kept.
Qed.

End FormFacts.

Section ExpressionFacts.

Import Request.

Lemma blank_lit_and : blank (lit " and ") = false.
Proof. reflexivity. Qed.

Lemma blank_default_expression : blank default_expression = false.
Proof. reflexivity. Qed.

(** What [isArrayPresent(v) ? v : null] can be. *)
Lemma kept_array_cases (v : FormValue) :
  (isArrayPresent v = false /\ kept_array v = VNull) \/
  (isArrayPresent v = true /\ kept_array v = v /\
   ((exists s, v = VText s /\ blank s = false) \/
    (exists x l, v = VList (x :: l)))).
Proof.
  unfold kept_array. destruct (isArrayPresent v) eqn:Hp; [right | left; auto].
  split; [reflexivity | split; [reflexivity |]].
  destruct v as [| | s | l]; try discriminate Hp.
  - left. exists s. change (present (VText s) = true) in Hp.
    rewrite present_text in Hp.
    split; [reflexivity | destruct (blank s); [discriminate | reflexivity]].
  - right. destruct l as [|x l]; [discriminate | eauto].
Qed.

(** ** The fields the prompt calls changed *)

Lemma is_null_kept (v : FormValue) : is_null (kept v) = negb (present v).
Proof.
  destruct (kept_cases v) as [[Hp Hk] | (Hp & Hk & [(s & -> & _) | (l & -> & _)])];
    rewrite Hp, Hk; reflexivity.
Qed.

Lemma is_null_kept_array (v : FormValue) :
  is_null (kept_array v) = negb (isArrayPresent v).
Proof.
  destruct (kept_array_cases v) as [[Hp Hk] | (Hp & Hk & [(s & -> & _) | (x & l & ->)])];
    rewrite Hp, Hk; reflexivity.
Qed.

Lemma filter_both {A : Type} (f g : A -> bool) (l : list A) :
  List.filter (fun x => f x && g x) l = List.filter g (List.filter f l).
Proof.
  induction l as [|x l IH]; [reflexivity |].
  simpl. destruct (f x); simpl; [destruct (g x) |]; rewrite IH; reflexivity.
Qed.

(** X12: [changedFields] lists, in the order of [attributes], the fields
    that are filled in among the eight that are not notes; a note never
    makes its field count as changed, and a note is never listed. *)
Theorem changedFields_characterised (raw : Fields) :
  changedFields (attributes raw) =
    List.filter
      (fun k => if String.eqb k "modelExpression"
                then isArrayPresent (field k raw)
                else present (field k raw))
      ["modelType"; "modelExpression"; "hair"; "pose"; "location";
       "accessories"; "otherOption"; "otherDetails"].
Proof.
  unfold changedFields.
  rewrite filter_both.
  change (List.map fst (attributes raw)) with
    ["modelType"; "modelTypeNote"; "modelExpression"; "modelExpressionNote";
     "hair"; "hairNote"; "pose"; "poseNote"; "location"; "locationNote";
     "accessories"; "accessoriesNote"; "otherOption"; "otherOptionNote";
     "otherDetails"].
  replace (List.filter (fun k => negb (endsWith k "Note")) _) with
    ["modelType"; "modelExpression"; "hair"; "pose"; "location";
     "accessories"; "otherOption"; "otherDetails"]
    by (vm_compute; reflexivity).
  apply filter_ext_in. intros k Hk. simpl in Hk.
  repeat (destruct Hk as [<- | Hk];
          [ match goal with
            | |- negb (is_null (field ?k _)) = _ =>
                first [ change (field k (attributes raw)) with (kept_array (field k raw));
                        rewrite is_null_kept_array
                      | change (field k (attributes raw)) with (kept (field k raw));
                        rewrite is_null_kept ]
            end;
            rewrite negb_involutive; reflexivity
          | ]).
  contradiction.
Qed.

End ExpressionFacts.

Section DetectionFacts.

Import Request.

Variable toLowerCase : Text -> Text.

(** ** Validation *)


End DetectionFacts.


Section KeywordFacts.

Import Request.

Lemma startsWith_iff (s prefix : Text) :
  startsWith s prefix = true <-> exists rest, s = prefix ++ rest.
Proof.
  revert s. induction prefix as [|p prefix IH]; intros s.
  - split; [intros _; exists s; reflexivity | intros _; destruct s; reflexivity].
  - destruct s as [|c s]; simpl.
    + split; [discriminate | intros [rest H]; discriminate H].
    + rewrite andb_true_iff, N.eqb_eq, IH. split.
      * intros [-> [rest ->]]. exists rest. reflexivity.
      * intros [rest H]. inversion H; subst. split; [reflexivity | eauto].
Qed.

(** [includes] finds exactly the texts that occur somewhere in [s]. *)
Lemma includes_iff (s needle : Text) :
  includes s needle = true <-> exists before after, s = before ++ needle ++ after.
Proof.
  induction s as [|c s IH].
  - change (includes [] needle) with (startsWith [] needle || false).
    rewrite orb_false_r, startsWith_iff. split.
    + intros [rest H]. exists [], rest. exact H.
    + intros (before & after & H).
      destruct before; [exists after; exact H | discriminate H].
  - change (includes (c :: s) needle) with
      (startsWith (c :: s) needle || includes s needle).
    rewrite orb_true_iff, startsWith_iff, IH. split.
    + intros [[rest H] | (before & after & H)].
      * exists [], rest. exact H.
      * exists (c :: before), after. rewrite H. reflexivity.
    + intros (before & after & H). destruct before as [|b before].
      * left. exists after. exact H.
      * right. inversion H; subst. eauto.
Qed.

(** A text that holds a phrase holds every part of the phrase. *)
Lemma includes_part (s phrase word : Text) :
  includes phrase word = true -> includes s phrase = true -> includes s word = true.
Proof.
  rewrite !includes_iff. intros (b1 & a1 & ->) (b2 & a2 & ->).
  exists (b2 ++ b1), (a1 ++ a2). rewrite <- !app_assoc. reflexivity.
Qed.

Lemma orb_absorb (a b : bool) : (b = true -> a = true) -> a || b = a.
Proof. destruct a, b; intuition. Qed.

Variable toLowerCase : Text -> Text.

(** X15: some keywords of the pose detection add nothing, since
    [includes] looks for the keyword anywhere in the text: a text that holds
    "working on laptop" holds "laptop", and one that holds "kitchen coffee"
    holds "coffee".  For the same reason a blouse zoom pose is always a zoom
    pose.  This holds whatever [toLowerCase] does. *)
Theorem redundant_pose_keywords (p : Text) :
  isKitchenLaptop toLowerCase p = mentions toLowerCase p "laptop" /\
  isKitchenCoffee toLowerCase p =
    mentions toLowerCase p "coffee" || mentions toLowerCase p "tea" ||
    mentions toLowerCase p "holding cup" /\
  (isBlouseZoomPose toLowerCase p = true -> isZoom toLowerCase p = true).
Proof.
  unfold isKitchenLaptop, isKitchenCoffee, isBlouseZoomPose, isZoom, mentions.
  split; [| split].
  - apply orb_absorb. apply includes_part. reflexivity.
  - apply orb_absorb. intros H.
    rewrite (includes_part _ (lit "kitchen coffee") (lit "coffee") eq_refl H).
    reflexivity.
  - intros H. apply andb_true_iff in H. destruct H as [_ Hz].
    simpl. rewrite Hz. reflexivity.
Qed.

(** ** The model's answer *)

(** X16: the image taken from the model's answer is the inline data of the
    first part that has any: the parts before it have none, and the data is
    not empty.  No image is found exactly when no part has data (an answer
    of text only, or without parts), and the handler then answers 500 "No
    image returned from Gemini." *)
Theorem first_image_is_first (parts : list Part) :
  match read_answer parts with
  | inr d =>
      d <> [] /\
      exists before after,
        parts = before ++ InlinePart d :: after /\
        forallb (fun p => negb (has_data p)) before = true
  | inl r =>
      r = no_image_response /\
      forallb (fun p => negb (has_data p)) parts = true
  end.
Proof.
  unfold read_answer.
  induction parts as [|p parts IH]; [split; reflexivity |].
  destruct p as [t | d].
  - simpl. destruct (first_image parts) as [d'|].
    + destruct IH as [Hd (before & after & Hp & Hb)].
      split; [exact Hd |].
      exists (TextPart t :: before), after. rewrite Hp. split; [reflexivity | exact Hb].
    + exact IH.
  - simpl. destruct d as [|c d].
    + simpl. destruct (first_image parts) as [d'|].
      * destruct IH as [Hd (before & after & Hp & Hb)].
        split; [exact Hd |].
        exists (InlinePart [] :: before), after. rewrite Hp. split; [reflexivity | exact Hb].
      * exact IH.
    + simpl. split; [discriminate |].
      exists [], parts. split; reflexivity.
Qed.

End KeywordFacts.

(** * The front of the handler on every body *)

Ltac attribute_key := unfold FormBody.attribute_keys; cbn [In]; tauto.

Section BodyFacts.

Import Request.
Import FormBody.

(** Induction on a value and on the elements of its lists. *)
Lemma Value_nested_ind (P : Value -> Prop) :
  P BUndefined -> P BNull -> (forall s, P (BText s)) ->
  (forall l, Forall P l -> P (BList l)) -> P BObject ->
  forall v, P v.
Proof.
  intros Hu Hn Ht Hl Ho. fix IH 1.
  intros [| | s | l |]; [exact Hu | exact Hn | apply Ht | | exact Ho].
  apply Hl. induction l as [|x l IHl]; constructor; [apply IH | exact IHl].
Qed.

Lemma render_list (l : list Value) :
  render (BList l) = option_map (join (lit ",")) (element_texts l).
Proof.
  reflexivity.
Qed.

Lemma holds_object_list (l : list Value) :
  holds_object (BList l) = existsb holds_object l.
Proof.
  reflexivity.
Qed.

Lemma element_text_render (x : Value) :
  element_text x = None <-> render x = None.
Proof. destruct x; cbn; split; (discriminate || auto). Qed.

Lemma element_texts_none (l : list Value) :
  element_texts l = None <-> exists x, In x l /\ render x = None.
Proof.
  induction l as [|x l IHl].
  - split; [discriminate | intros (x & [] & _)].
  - cbn [element_texts].
    destruct (element_text x) as [t|] eqn:Hx.
    + destruct (element_texts l) as [ts|].
      * split; [discriminate |].
        intros (y & [<- | Hin] & Hy).
        -- apply element_text_render in Hy. congruence.
        -- assert (Hn : Some ts = None) by (apply IHl; eauto). discriminate Hn.
      * split; [| reflexivity].
        intros _. destruct (proj1 IHl eq_refl) as (y & Hin & Hy).
        exists y. split; [right; exact Hin | exact Hy].
    + split; [| reflexivity].
      intros _. exists x. split; [left; reflexivity | apply element_text_render, Hx].
Qed.

(** [String(v)] throws exactly on a value that holds an object. *)
Lemma render_none_iff (v : Value) : render v = None <-> holds_object v = true.
Proof.
  induction v as [| | s | l IHl |] using Value_nested_ind;
    try (split; discriminate); [| split; reflexivity].
  rewrite render_list, holds_object_list, existsb_exists.
  rewrite Forall_forall in IHl.
  destruct (element_texts l) as [ts|] eqn:Hl.
  - split; [discriminate |].
    intros (x & Hin & Hx). apply IHl in Hx; [| exact Hin].
    assert (Hn : element_texts l = None) by (apply element_texts_none; eauto).
    congruence.
  - split; [| reflexivity].
    intros _. apply element_texts_none in Hl. destruct Hl as (x & Hin & Hx).
    exists x. split; [exact Hin | apply IHl; assumption].
Qed.

Lemma present_none_iff (v : Value) : present v = None <-> holds_object v = true.
Proof.
  rewrite <- render_none_iff.
  destruct v as [| | s | l |]; cbn [present]; try (split; discriminate).
  - destruct (render (BList l)); cbn; split; (discriminate || auto).
  - split; reflexivity.
Qed.

(** An element of a list is joined as white space exactly when
    [joins_blank] says so. *)
Lemma element_text_blank (x : Value) :
  forall t, element_text x = Some t -> blank t = joins_blank x.
Proof.
  induction x as [| | s | l IHl |] using Value_nested_ind; intros t Ht;
    try (inversion Ht; subst; reflexivity).
  change (render (BList l) = Some t) in Ht. rewrite render_list in Ht.
  destruct (element_texts l) as [ts|] eqn:Hl; [| discriminate Ht].
  inversion Ht; subst t. rewrite (blank_join _ ts blank_lit_comma).
  destruct l as [|x [|y l]].
  - inversion Hl; subst. reflexivity.
  - cbn [element_texts] in Hl.
    destruct (element_text x) as [t|] eqn:Hx; [| discriminate Hl].
    inversion Hl; subst ts. inversion IHl as [|? ? IHx _]; subst.
    cbn. rewrite !andb_true_r. apply IHx. exact Hx.
  - cbn [element_texts] in Hl.
    destruct (element_text x); [| discriminate Hl].
    destruct (element_text y); [| discriminate Hl].
    destruct (element_texts l); [| discriminate Hl].
    inversion Hl; subst ts. cbn. apply andb_false_r.
Qed.

(** What [present(v) ? v : null] can be when [present] returns. *)
Lemma kept_value_cases (v kv : Value) :
  kept v = Some kv ->
  (present v = Some false /\ kv = BNull) \/
  (present v = Some true /\ kv = v /\
   exists t, render v = Some t /\ blank t = false /\
             ((v = BText t) \/ (exists l, v = BList l))).
Proof.
  unfold kept. destruct (present v) as [[|]|] eqn:Hp; cbn; intros H;
    [injection H as <-; right | injection H as <-; left; auto | discriminate H].
  split; [reflexivity | split; [reflexivity |]].
  destruct v as [| | s | l |]; try discriminate Hp; cbn [present] in Hp.
  - exists s. cbn in Hp. rewrite trim_empty in Hp.
    split; [reflexivity | split; [| left; reflexivity]].
    destruct (blank s); [discriminate Hp | reflexivity].
  - destruct (render (BList l)) as [t|]; [| discriminate Hp].
    exists t. cbn in Hp. rewrite trim_empty in Hp.
    split; [reflexivity | split; [| right; eauto]].
    destruct (blank t); [discriminate Hp | reflexivity].
Qed.

(** What [isArrayPresent(v) ? v : null] can be when [isArrayPresent]
    returns. *)
Lemma kept_array_value_cases (v kv : Value) :
  kept_array v = Some kv ->
  (isArrayPresent v = Some false /\ kv = BNull) \/
  (isArrayPresent v = Some true /\ kv = v /\
   ((exists s, v = BText s /\ blank s = false) \/ (exists x l, v = BList (x :: l)))).
Proof.
  unfold kept_array. destruct (isArrayPresent v) as [[|]|] eqn:Hp; cbn; intros H;
    [injection H as <-; right | injection H as <-; left; auto | discriminate H].
  split; [reflexivity | split; [reflexivity |]].
  destruct v as [| | s | l |]; try discriminate Hp.
  - left. exists s. cbn in Hp. rewrite trim_empty in Hp.
    split; [reflexivity | destruct (blank s); [discriminate Hp | reflexivity]].
  - right. destruct l as [|x l]; [discriminate Hp | eauto].
Qed.

Lemma truthy_text_not_blank (s : Text) : blank s = false -> truthy (BText s) = true.
Proof. destruct s; [discriminate | reflexivity]. Qed.

(** A kept value is [null] or a value that is filled in; its truthiness
    tells which, and [String] returns on it. *)
Lemma kept_value_truthy (v kv : Value) :
  kept v = Some kv ->
  exists p, present v = Some p /\ truthy kv = p /\ kv = (if p then v else BNull) /\
            exists t, render kv = Some t /\ (p = true -> blank t = false).
Proof.
  intros Hk.
  destruct (kept_value_cases _ _ Hk)
    as [[Hp ->] | (Hp & -> & t & Ht & Hb & [-> | (l & ->)])].
  - exists false. repeat split; try assumption. exists (lit "null").
    split; [reflexivity | discriminate].
  - exists true. repeat split; try assumption.
    + apply truthy_text_not_blank, Hb.
    + exists t. auto.
  - exists true. repeat split; try assumption. exists t. auto.
Qed.

(** [mergeChoice] on kept values returns: the joined choice when the
    choice is filled in, else the note as it was sent, else the default. *)
Lemma mergeChoice_kept_values (d0 n0 d n : Value) (fallback : Text) :
  kept d0 = Some d -> kept n0 = Some n ->
  exists r, mergeChoice d n fallback = Some r /\
    (present d0 = Some true -> exists t, r = BText t) /\
    (present d0 = Some false -> present n0 = Some true -> r = n0) /\
    (present d0 = Some false -> present n0 = Some false -> r = BText fallback).
Proof.
  intros Hd Hn.
  destruct (kept_value_truthy _ _ Hn) as (pn & Hpn & Htn & Hkn & tn & Hrn & _).
  destruct (kept_value_cases _ _ Hd)
    as [[Hp ->] | (Hp & -> & t & Ht & Hb & Hshape)]; unfold mergeChoice.
  - cbn [isArrayPresent present truthy andb]. rewrite Htn.
    destruct pn; subst n; eexists; (split; [reflexivity |]);
      (split; [congruence | split; congruence]).
  - assert (Ha : isArrayPresent d0 = Some true).
    { destruct Hshape as [-> | (l & ->)]; [exact Hp |].
      destruct l as [|x l]; [| reflexivity].
      rewrite render_list in Ht. inversion Ht; subst t. discriminate Hb. }
    assert (Hj : exists c, join_value (lit ", ") d0 = Some c).
    { destruct Hshape as [-> | (l & ->)]; [eexists; reflexivity |].
      rewrite render_list in Ht. cbn [join_value].
      destruct (element_texts l); [eexists; reflexivity | discriminate Ht]. }
    destruct Hj as (c & Hc). rewrite Ha, Hc, Htn, Hrn.
    destruct pn; cbn [option_map]; eexists; (split; [reflexivity |]);
      (split; [eauto | split; congruence]).
Qed.

(** The pose text is always built from kept values. *)
Lemma poseText_kept_values (p0 n0 p n : Value) :
  kept p0 = Some p -> kept n0 = Some n ->
  exists a b, render (or_else p (BText [])) = Some a /\
              render (or_else n (BText [])) = Some b.
Proof.
  intros Hp Hn.
  destruct (kept_value_truthy _ _ Hp) as (pp & _ & Htp & _ & tp & Hrp & _).
  destruct (kept_value_truthy _ _ Hn) as (pn & _ & Htn & _ & tn & Hrn & _).
  unfold or_else. rewrite Htp, Htn.
  destruct pp, pn; do 2 eexists; (split; [first [exact Hrp | reflexivity]
                                          | first [exact Hrn | reflexivity]]).
Qed.

(** The expression phrase on kept values: the join throws exactly when the
    expression is a list that holds an object; otherwise the phrase is
    blank in one case only. *)
Lemma formatExpression_kept_values (me0 men0 me men : Value) :
  kept_array me0 = Some me -> kept men0 = Some men ->
  match formatExpression me men with
  | None => holds_object me0 = true
  | Some t =>
      holds_object me0 = false /\
      (isArrayPresent me0 = Some false -> present men0 = Some false ->
       t = default_expression) /\
      (blank t = true <->
       (exists x, me0 = BList [x] /\ joins_blank x = true) /\
       present men0 = Some false)
  end.
Proof.
  intros Hme Hmen.
  destruct (kept_value_truthy _ _ Hmen) as (pn & Hpn & Htn & _ & tn & Hrn & Hbn).
  unfold formatExpression. rewrite Htn, Hrn.
  destruct (kept_array_value_cases _ _ Hme)
    as [[Hp ->] | (Hp & -> & [(s & -> & Hs) | (x & l & ->)])].
  - cbn [truthy option_map app].
    assert (Hno : holds_object me0 = false).
    { destruct (holds_object me0) eqn:Ho; [| reflexivity].
      destruct me0 as [| | s | l |]; try discriminate Ho;
        [| cbn in Hp; discriminate Hp].
      destruct l; [cbn in Ho; discriminate Ho | cbn in Hp; discriminate Hp]. }
    destruct pn; cbn [option_map app].
    + split; [exact Hno | split; [congruence |]].
      cbn [join]. rewrite (Hbn eq_refl).
      split; [discriminate | intros [_ H]; congruence].
    + split; [exact Hno | split; [reflexivity |]].
      rewrite blank_default_expression.
      split; [discriminate |].
      intros [(x & -> & _) _]. discriminate Hp.
  - rewrite (truthy_text_not_blank _ Hs). cbn [join_value element_text render option_map].
    destruct pn; cbn [option_map app join].
    + split; [reflexivity | split; [congruence |]].
      rewrite blank_app, Hs. split; [discriminate | intros [_ H]; congruence].
    + split; [reflexivity | split; [congruence |]].
      rewrite Hs. split; [discriminate | intros [(x & Hx & _) _]; discriminate Hx].
  - cbn [truthy join_value].
    pose proof (render_none_iff (BList (x :: l))) as Hthrow. rewrite render_list in Hthrow.
    destruct (element_texts (x :: l)) as [ts|] eqn:Hts; cbn [option_map].
    + assert (Hno : holds_object (BList (x :: l)) = false).
      { destruct (holds_object (BList (x :: l))); [| reflexivity].
        destruct Hthrow as [_ H]. discriminate (H eq_refl). }
      destruct pn; cbn [option_map app].
      * split; [exact Hno | split; [congruence |]].
        change (join (lit " and ") [join (lit ", ") ts; tn]) with
          (join (lit ", ") ts ++ lit " and " ++ tn).
        rewrite !blank_app, blank_lit_and, andb_false_r.
        split; [discriminate | intros [_ H]; congruence].
      * split; [exact Hno | split; [intros H; discriminate H |]].
        cbn [join]. rewrite (blank_join _ ts blank_lit_comma_space).
        cbn [element_texts] in Hts.
        destruct (element_text x) as [t|] eqn:Hx; [| discriminate Hts].
        destruct (element_texts l) as [ts'|] eqn:Hl; [| discriminate Hts].
        inversion Hts; subst ts.
        destruct l as [|y l].
        -- inversion Hl; subst ts'. cbn. rewrite !andb_true_r.
           rewrite (element_text_blank _ _ Hx).
           split; [intros Hb; split; [eauto | exact Hpn] |].
           intros [(x' & Hx' & Hb) _]. inversion Hx'; subst. exact Hb.
        -- cbn [element_texts] in Hl.
           destruct (element_text y); [| discriminate Hl].
           destruct (element_texts l); [| discriminate Hl].
           inversion Hl; subst ts'. cbn. rewrite andb_false_r.
           split; [discriminate | intros [(x' & Hx' & _) _]; discriminate Hx'].
    + apply Hthrow. reflexivity.
Qed.

Lemma kept_none_iff (v : Value) : kept v = None <-> holds_object v = true.
Proof.
  rewrite <- present_none_iff. unfold kept.
  destruct (present v); cbn; split; (discriminate || auto).
Qed.

Lemma kept_array_none_iff (v : Value) : kept_array v = None <-> v = BObject.
Proof.
  unfold kept_array. destruct v as [| | s | l |]; cbn; split; (discriminate || auto).
Qed.

(** The [attributes] object, when no [present] throws: each field is the
    kept value of the field of the same name. *)
Lemma attributes_built (raw attrs : Fields) :
  attributes raw = Some attrs ->
  kept_array (field "modelExpression" raw) = Some (field "modelExpression" attrs) /\
  (forall k, In k attribute_keys -> k <> "modelExpression" ->
             kept (field k raw) = Some (field k attrs)) /\
  List.map fst attrs = attribute_keys.
Proof.
  intros H. unfold attributes in H. cbn [literal] in H.
  destruct (kept (field "modelType" raw)) eqn:H1; [| discriminate H].
  destruct (kept (field "modelTypeNote" raw)) eqn:H2; [| discriminate H].
  destruct (kept_array (field "modelExpression" raw)) eqn:H3; [| discriminate H].
  destruct (kept (field "modelExpressionNote" raw)) eqn:H4; [| discriminate H].
  destruct (kept (field "hair" raw)) eqn:H5; [| discriminate H].
  destruct (kept (field "hairNote" raw)) eqn:H6; [| discriminate H].
  destruct (kept (field "pose" raw)) eqn:H7; [| discriminate H].
  destruct (kept (field "poseNote" raw)) eqn:H8; [| discriminate H].
  destruct (kept (field "location" raw)) eqn:H9; [| discriminate H].
  destruct (kept (field "locationNote" raw)) eqn:H10; [| discriminate H].
  destruct (kept (field "accessories" raw)) eqn:H11; [| discriminate H].
  destruct (kept (field "accessoriesNote" raw)) eqn:H12; [| discriminate H].
  destruct (kept (field "otherOption" raw)) eqn:H13; [| discriminate H].
  destruct (kept (field "otherOptionNote" raw)) eqn:H14; [| discriminate H].
  destruct (kept (field "otherDetails" raw)) eqn:H15; [| discriminate H].
  cbn [option_map] in H. injection H as <-.
  split; [reflexivity | split; [| reflexivity]].
  intros k Hin Hne. unfold attribute_keys in Hin.
  repeat (destruct Hin as [<- | Hin];
          [first [assumption | contradiction Hne; reflexivity] |]).
  contradiction Hin.
Qed.

(** Building [attributes] throws exactly when a field other than the
    expression holds an object, or the expression is an object itself. *)
Lemma attributes_throws (raw : Fields) :
  attributes raw = None <->
  field "modelExpression" raw = BObject \/
  exists k, In k attribute_keys /\ k <> "modelExpression" /\
            holds_object (field k raw) = true.
Proof.
  split.
  - intros H. unfold attributes in H. cbn [literal] in H.
    repeat match type of H with
           | match kept (field ?k raw) with _ => _ end = None =>
               destruct (kept (field k raw)) eqn:?;
               [| right; exists k;
                  split; [unfold attribute_keys; cbn [In]; tauto |
                          split; [discriminate | apply kept_none_iff; assumption]]]
           | match kept_array (field ?k raw) with _ => _ end = None =>
               destruct (kept_array (field k raw)) eqn:?;
               [| left; apply kept_array_none_iff; assumption]
           | option_map _ ?x = None =>
               assert (Hx : x = None) by (destruct x; [discriminate H | reflexivity]);
               clear H; rename Hx into H
           end.
    discriminate H.
  - intros [Hobj | (k & Hin & Hne & Hobj)].
    + apply kept_array_none_iff in Hobj. unfold attributes. cbn [literal].
      rewrite Hobj.
      repeat match goal with
             | |- match ?x with _ => _ end = None => destruct x; [| reflexivity]
             | |- option_map _ ?x = None => enough (Hx : x = None) by (rewrite Hx; reflexivity)
             end.
      reflexivity.
    + apply kept_none_iff in Hobj. unfold attributes. cbn [literal].
      unfold attribute_keys in Hin.
      repeat (destruct Hin as [<- | Hin];
              [first [contradiction Hne; reflexivity |
                      rewrite Hobj;
                      repeat match goal with
                        | |- match ?x with _ => _ end = None => destruct x; [| reflexivity]
                        | |- option_map _ ?x = None =>
                            enough (Hx : x = None) by (rewrite Hx; reflexivity)
                        end; reflexivity] |]).
      contradiction Hin.
Qed.

(** The [attrPhrases] object, when [attributes] was built: its six merged
    phrases are always built, and the expression phrase decides whether the
    object is. *)
Lemma attrPhrases_built (raw attrs : Fields) :
  attributes raw = Some attrs ->
  exists mt hair pose loc acc other,
    mergeChoice (field "modelType" attrs) (field "modelTypeNote" attrs)
      default_modelType = Some mt /\
    mergeChoice (field "location" attrs) (field "locationNote" attrs)
      default_location = Some loc /\
    attrPhrases attrs =
      option_map
        (fun t =>
           [("modelType", mt); ("modelExpression", BText t); ("hair", hair);
            ("pose", pose); ("location", loc); ("accessories", acc);
            ("otherOption", other);
            ("otherDetails", or_else (field "otherDetails" attrs) (BText []))])
        (formatExpression (field "modelExpression" attrs)
           (field "modelExpressionNote" attrs)).
Proof.
  intros Ha. destruct (attributes_built _ _ Ha) as (_ & Hk & _).
  assert (Hm : forall k note fallback,
             In k attribute_keys -> k <> "modelExpression" ->
             In note attribute_keys -> note <> "modelExpression" ->
             exists r, mergeChoice (field k attrs) (field note attrs) fallback = Some r).
  { intros k note fallback Hin Hne Hin' Hne'.
    destruct (mergeChoice_kept_values _ _ _ _ fallback (Hk k Hin Hne) (Hk note Hin' Hne'))
      as (r & Hr & _).
    eauto. }
  destruct (Hm "modelType" "modelTypeNote" default_modelType)
    as (mt & Hmt); [attribute_key | discriminate | attribute_key | discriminate |].
  destruct (Hm "hair" "hairNote" default_hair)
    as (hair & Hhair); [attribute_key | discriminate | attribute_key | discriminate |].
  destruct (Hm "pose" "poseNote" default_pose)
    as (pose & Hpose); [attribute_key | discriminate | attribute_key | discriminate |].
  destruct (Hm "location" "locationNote" default_location)
    as (loc & Hloc); [attribute_key | discriminate | attribute_key | discriminate |].
  destruct (Hm "accessories" "accessoriesNote" default_accessories)
    as (acc & Hacc); [attribute_key | discriminate | attribute_key | discriminate |].
  destruct (Hm "otherOption" "otherOptionNote" default_otherOption)
    as (other & Hother); [attribute_key | discriminate | attribute_key | discriminate |].
  exists mt, hair, pose, loc, acc, other.
  split; [exact Hmt | split; [exact Hloc |]].
  unfold attrPhrases. rewrite Hmt, Hhair, Hpose, Hloc, Hacc, Hother.
  cbn [literal].
  destruct (formatExpression _ _); reflexivity.
Qed.

(** X11: on a body whose attributes and phrases are built, the expression
    phrase is the default when neither an expression nor a note is given,
    and it is blank in one case only: the expression is a list of a single
    element that is joined as white space (an empty slot, a blank text, or
    a list of at most one such element, as a field named
    [modelExpression[0][0]] makes one) and no note is filled in.  Such a
    list is kept because [isArrayPresent] looks at its length alone. *)
Theorem expression_phrase_blank_cases (raw attrs phrases : Fields) :
  attributes raw = Some attrs ->
  attrPhrases attrs = Some phrases ->
  let me := field "modelExpression" raw in
  let men := field "modelExpressionNote" raw in
  exists t,
    field "modelExpression" phrases = BText t /\
    (isArrayPresent me = Some false -> present men = Some false ->
     t = default_expression) /\
    (blank t = true <->
     (exists x, me = BList [x] /\ joins_blank x = true) /\
     present men = Some false).
Proof.
  intros Ha Hp. cbv zeta.
  destruct (attributes_built _ _ Ha) as (Hme & Hk & _).
  assert (Hmen : kept (field "modelExpressionNote" raw) =
                 Some (field "modelExpressionNote" attrs))
    by (apply Hk; [attribute_key | discriminate]).
  pose proof (formatExpression_kept_values _ _ _ _ Hme Hmen) as Hf.
  destruct (attrPhrases_built _ _ Ha) as (mt & hair & pose & loc & acc & other & _ & _ & Hb).
  rewrite Hb in Hp.
  destruct (formatExpression _ _) as [t|]; [| discriminate Hp].
  injection Hp as <-. exists t. split; [reflexivity | exact (proj2 Hf)].
Qed.

End BodyFacts.

(** X11, at the body of a form whose only field is named
    [modelExpression[0][0]] and holds one space. *)
Lemma expression_phrase_blank_cases_witness :
  let raw := [("modelExpression",
               FormBody.BList [FormBody.BList [FormBody.BText (Request.lit " ")]])] in
  exists attrs phrases t,
    FormBody.attributes raw = Some attrs /\
    FormBody.attrPhrases attrs = Some phrases /\
    FormBody.field "modelExpression" phrases = FormBody.BText t /\
    Request.blank t = true.
Proof.
  cbv zeta.
  set (raw := [("modelExpression",
                FormBody.BList [FormBody.BList [FormBody.BText (Request.lit " ")]])]).
  let a := eval vm_compute in (FormBody.attributes raw) in
  match a with Some ?x => pose (attrs := x) end.
  let p := eval vm_compute in (FormBody.attrPhrases attrs) in
  match p with Some ?x => pose (phrases := x) end.
  assert (Ha : FormBody.attributes raw = Some attrs) by (vm_compute; reflexivity).
  assert (Hp : FormBody.attrPhrases attrs = Some phrases) by (vm_compute; reflexivity).
  destruct (expression_phrase_blank_cases raw attrs phrases Ha Hp) as (t & Ht & _ & Hblank).
  exists attrs, phrases, t.
  split; [exact Ha | split; [exact Hp | split; [exact Ht |]]].
  apply Hblank. split; [| reflexivity].
  eexists. split; reflexivity.
Defined.

Section BodyDetection.

Import Request.
Import FormBody.

Variable toLowerCase : Text -> Text.

(** [toLowerCase] is missing on a merged phrase exactly when the phrase is
    a note that arrived as a list. *)
Lemma lower_of_merged_values (d0 n0 d n : Value) (fallback dflt : Text) :
  kept d0 = Some d -> kept n0 = Some n ->
  exists r, mergeChoice d n fallback = Some r /\
    (lower_of toLowerCase (or_else r (BText dflt)) = None <->
     present d0 = Some false /\ present n0 = Some true /\ exists l, n0 = BList l).
Proof.
  intros Hd Hn.
  destruct (mergeChoice_kept_values _ _ _ _ fallback Hd Hn) as (r & Hr & Hchoice & Hnote & Hdef).
  exists r. split; [exact Hr |].
  destruct (kept_value_truthy _ _ Hd) as (pd & Hpd & _).
  destruct (kept_value_cases _ _ Hn)
    as [[Hpn _] | (Hpn & _ & t & Ht & Hb & Hshape)].
  - assert (Htext : exists t, r = BText t)
      by (destruct pd; [apply Hchoice, Hpd | eexists; apply Hdef; assumption]).
    destruct Htext as (t & ->). unfold or_else.
    destruct (truthy (BText t)); cbn;
      (split; [discriminate | intros (_ & H & _); congruence]).
  - destruct pd.
    + destruct (Hchoice Hpd) as (c & ->). unfold or_else.
      destruct (truthy (BText c)); cbn;
        (split; [discriminate | intros (H & _); congruence]).
    + rewrite (Hnote Hpd Hpn).
      destruct Hshape as [-> | (l & ->)].
      * unfold or_else. rewrite (truthy_text_not_blank _ Hb). cbn.
        split; [discriminate | intros (_ & _ & l & Hl); discriminate Hl].
      * cbn. split; [intros _; eauto | reflexivity].
Qed.


(** X14: a request that is not answered 400 is answered 500 "Failed to
    generate image." before the prompt is assembled exactly when one of the
    fifteen attribute fields holds an object (which a field name with a
    bracketed key makes, alone or within a list), or the model type or the
    location is left empty while its note arrived as a list that is filled
    in.  In the first case [String] or [join] throws on the object, in the
    second [toLowerCase] is not a method of the list.  In every other case
    the handler reaches the prompt assembly. *)
Theorem type_error_before_prompt (req : Request) :
  (forall r, analyse toLowerCase req = inl r -> status r <> 400) ->
  let raw := body req in
  let fails :=
    (exists k, In k attribute_keys /\ holds_object (field k raw) = true) \/
    list_note raw "modelType" "modelTypeNote" \/
    list_note raw "location" "locationNote" in
  (analyse toLowerCase req = inl catch_response <-> fails) /\
  (~ fails -> exists a, analyse toLowerCase req = inr a).
Proof.
  intros H400. cbv zeta. unfold analyse in *.
  destruct (is_model_reference_mode _ && negb (is_some (referenceImage2 req)));
    [exfalso; apply (H400 _ eq_refl); reflexivity |].
  destruct (negb (is_some (referenceImage req)));
    [exfalso; apply (H400 _ eq_refl); reflexivity |].
  destruct (attributes (body req)) as [attrs|] eqn:Ha.
  - destruct (attributes_built _ _ Ha) as (Hme & Hk & _).
    assert (Hclean : forall k, In k attribute_keys -> k <> "modelExpression" ->
                               holds_object (field k (body req)) = false).
    { intros k Hin Hne. destruct (holds_object (field k (body req))) eqn:Ho; [| reflexivity].
      assert (Hn : attributes (body req) = None) by (apply attributes_throws; eauto).
      congruence. }
    assert (Hmen : kept (field "modelExpressionNote" (body req)) =
                   Some (field "modelExpressionNote" attrs))
      by (apply Hk; [attribute_key | discriminate]).
    pose proof (formatExpression_kept_values _ _ _ _ Hme Hmen) as Hf.
    destruct (poseText_kept_values _ _ _ _
                (Hk "pose" ltac:(attribute_key) ltac:(discriminate))
                (Hk "poseNote" ltac:(attribute_key) ltac:(discriminate)))
      as (a & b & Hpa & Hpb).
    unfold poseText in *. rewrite Hpa, Hpb in *.
    destruct (isBackPose toLowerCase _ && negb (is_some (referenceImage2 req)));
      [exfalso; apply (H400 _ eq_refl); reflexivity |].
    destruct (attrPhrases_built _ _ Ha)
      as (mt & hair & pose & loc & acc & other & Hmt & Hloc & Hb).
    rewrite Hb in *.
    destruct (formatExpression _ _) as [t|]; cbn [option_map] in *.
    + destruct Hf as (Hno & _).
      assert (Hnone : ~ exists k, In k attribute_keys /\
                                  holds_object (field k (body req)) = true).
      { intros (k & Hin & Ho).
        destruct (String.eqb k "modelExpression") eqn:Hk';
          [apply String.eqb_eq in Hk'; subst k; congruence |].
        apply String.eqb_neq in Hk'. rewrite (Hclean k Hin Hk') in Ho. discriminate Ho. }
      destruct (lower_of_merged_values _ _ _ _ default_modelType default_modelType
                  (Hk "modelType" ltac:(attribute_key) ltac:(discriminate))
                  (Hk "modelTypeNote" ltac:(attribute_key) ltac:(discriminate)))
        as (mt' & Hmt' & Hlm).
      destruct (lower_of_merged_values _ _ _ _ default_location []
                  (Hk "location" ltac:(attribute_key) ltac:(discriminate))
                  (Hk "locationNote" ltac:(attribute_key) ltac:(discriminate)))
        as (loc' & Hloc' & Hll).
      assert (mt' = mt) by congruence. assert (loc' = loc) by congruence. subst mt' loc'.
      clear H400.
      match goal with
      | |- context [field "modelType" (?x :: ?o)] =>
          change (field "modelType" (x :: o)) with mt;
          change (field "location" (x :: o)) with loc
      end.
      fold (list_note (body req) "modelType" "modelTypeNote") in Hlm.
      fold (list_note (body req) "location" "locationNote") in Hll.
      destruct (lower_of toLowerCase (or_else mt _)) as [selected|].
      * destruct (lower_of toLowerCase (or_else loc _)) as [l|].
        -- split.
           ++ split; [discriminate |].
              intros [H | [H | H]];
                [contradiction | apply Hlm in H; discriminate H
                 | apply Hll in H; discriminate H].
           ++ intros _. eauto.
        -- split.
           ++ split; [intros _; right; right; apply Hll; reflexivity | reflexivity].
           ++ intros Hno'. exfalso. apply Hno'. right; right. apply Hll. reflexivity.
      * split.
        -- split; [intros _; right; left; apply Hlm; reflexivity | reflexivity].
        -- intros Hno'. exfalso. apply Hno'. right; left. apply Hlm. reflexivity.
    + assert (Hfails : exists k, In k attribute_keys /\
                                 holds_object (field k (body req)) = true)
        by (exists "modelExpression"; split; [attribute_key | exact Hf]).
      split; [split; [intros _; left; exact Hfails | reflexivity] |].
      intros Hno. exfalso. apply Hno. left. exact Hfails.
  - assert (Hfails : exists k, In k attribute_keys /\
                               holds_object (field k (body req)) = true).
    { apply attributes_throws in Ha. destruct Ha as [Ho | (k & Hin & _ & Ho)].
      - exists "modelExpression". split; [attribute_key | rewrite Ho; reflexivity].
      - eauto. }
    split; [split; [intros _; left; exact Hfails | reflexivity] |].
    intros Hno. exfalso. apply Hno. left. exact Hfails.
Qed.

End BodyDetection.

(** X14, at three requests with a reference image: the field [hair[style]]
    is sent, so that [hair] is an object; no model type is sent and the note
    "tall" twice; a model type is sent alone. *)
Lemma type_error_before_prompt_witness :
  let image := Some (Request.mkUploadedFile [] (Request.lit "image/png")) in
  FormBody.analyse Request.ascii_lower
    (FormBody.mkRequest image None [("hair", FormBody.BObject)]) =
    inl catch_response /\
  FormBody.analyse Request.ascii_lower
    (FormBody.mkRequest image None
       [("modelTypeNote",
         FormBody.BList [FormBody.BText (Request.lit "tall");
                         FormBody.BText (Request.lit "tall")])]) =
    inl catch_response /\
  exists a,
    FormBody.analyse Request.ascii_lower
      (FormBody.mkRequest image None
         [("modelType", FormBody.BText (Request.lit "European woman"))]) = inr a /\
    FormBody.isEuropeanModel a = true.
Proof.
  cbv zeta. split; [| split].
  - refine (proj2 (proj1 (type_error_before_prompt Request.ascii_lower
                            (FormBody.mkRequest _ None [("hair", FormBody.BObject)]) _)) _).
    + intros r H. vm_compute in H. injection H as <-. discriminate.
    + left. exists "hair". split; [attribute_key | reflexivity].
  - refine (proj2 (proj1 (type_error_before_prompt Request.ascii_lower
                            (FormBody.mkRequest _ None [("modelTypeNote", _)]) _)) _).
    + intros r H. vm_compute in H. injection H as <-. discriminate.
    + right; left.
      split; [reflexivity | split; [reflexivity | eexists; reflexivity]].
  - destruct (proj2 (type_error_before_prompt Request.ascii_lower
                       (FormBody.mkRequest
                          (Some (Request.mkUploadedFile [] (Request.lit "image/png"))) None
                          [("modelType", FormBody.BText (Request.lit "European woman"))])
                       ltac:(intros r H; vm_compute in H; discriminate H)))
      as (a & Ha).
    + intros [(k & Hin & Ho) | [(H & _) | (_ & H & _)]];
        [| vm_compute in H; discriminate H | vm_compute in H; discriminate H].
      unfold FormBody.attribute_keys in Hin.
      repeat (destruct Hin as [<- | Hin]; [vm_compute in Ho; discriminate Ho |]).
      contradiction Hin.
    + exists a. split; [exact Ha |].
      vm_compute in Ha. injection Ha as <-. reflexivity.
Defined.

(** ** Bodies without bracketed field names *)

Section FlatBodies.

Import Request.

Variable toLowerCase : Text -> Text.

Lemma element_texts_of_flat (l : list Text) :
  FormBody.element_texts (List.map FormBody.BText l) = Some l.
Proof.
  induction l as [|x l IHl]; [reflexivity |].
  cbn [List.map FormBody.element_texts FormBody.element_text FormBody.render].
  rewrite IHl. reflexivity.
Qed.

Lemma render_of_flat (v : FormValue) :
  FormBody.render (FormBody.of_flat v) = Some (to_string v).
Proof.
  destruct v as [| | s | l]; try reflexivity.
  cbn [FormBody.of_flat]. rewrite render_list, element_texts_of_flat. reflexivity.
Qed.

Lemma truthy_of_flat (v : FormValue) :
  FormBody.truthy (FormBody.of_flat v) = truthy v.
Proof. destruct v; reflexivity. Qed.

Lemma present_of_flat (v : FormValue) :
  FormBody.present (FormBody.of_flat v) = Some (present v).
Proof.
  destruct v as [| | s | l]; try reflexivity.
  change (FormBody.present (FormBody.of_flat (VList l))) with
    (option_map (fun t => negb (is_empty (trim t)))
       (FormBody.render (FormBody.of_flat (VList l)))).
  rewrite render_of_flat. reflexivity.
Qed.

Lemma isArrayPresent_of_flat (v : FormValue) :
  FormBody.isArrayPresent (FormBody.of_flat v) = Some (isArrayPresent v).
Proof.
  destruct v as [| | s | l]; try reflexivity.
  cbn [FormBody.of_flat FormBody.isArrayPresent isArrayPresent].
  rewrite length_map. reflexivity.
Qed.

Lemma join_value_of_flat (sep : Text) (v : FormValue) :
  FormBody.join_value sep (FormBody.of_flat v) = Some (join_value sep v).
Proof.
  destruct v as [| | s | l]; try reflexivity.
  cbn [FormBody.of_flat FormBody.join_value]. rewrite element_texts_of_flat. reflexivity.
Qed.

Lemma kept_of_flat (v : FormValue) :
  FormBody.kept (FormBody.of_flat v) = Some (FormBody.of_flat (kept v)).
Proof.
  unfold FormBody.kept, kept. rewrite present_of_flat.
  destruct (present v); reflexivity.
Qed.

Lemma kept_array_of_flat (v : FormValue) :
  FormBody.kept_array (FormBody.of_flat v) = Some (FormBody.of_flat (kept_array v)).
Proof.
  unfold FormBody.kept_array, kept_array. rewrite isArrayPresent_of_flat.
  destruct (isArrayPresent v); reflexivity.
Qed.

Lemma mergeChoice_of_flat (d n : FormValue) (fallback : Text) :
  FormBody.mergeChoice (FormBody.of_flat d) (FormBody.of_flat n) fallback =
  Some (FormBody.of_flat (mergeChoice d n fallback)).
Proof.
  unfold FormBody.mergeChoice, mergeChoice.
  rewrite isArrayPresent_of_flat, join_value_of_flat, !truthy_of_flat, !render_of_flat.
  destruct (isArrayPresent d).
  - destruct (truthy n); reflexivity.
  - destruct (truthy d), (truthy n); reflexivity.
Qed.

Lemma formatExpression_of_flat (selected note : FormValue) :
  FormBody.formatExpression (FormBody.of_flat selected) (FormBody.of_flat note) =
  Some (formatExpression selected note).
Proof.
  unfold FormBody.formatExpression, formatExpression.
  rewrite join_value_of_flat, !truthy_of_flat, render_of_flat.
  destruct (truthy selected), (truthy note); reflexivity.
Qed.

Lemma field_of_flat (k : string) (o : Fields) :
  FormBody.field k (FormBody.of_flat_fields o) = FormBody.of_flat (field k o).
Proof.
  induction o as [|[k' v] o IHo]; [reflexivity |].
  cbn [FormBody.of_flat_fields List.map FormBody.field field fst snd].
  destruct (String.eqb k k'); [reflexivity | exact IHo].
Qed.

Lemma attributes_of_flat (raw : Fields) :
  FormBody.attributes (FormBody.of_flat_fields raw) =
  Some (FormBody.of_flat_fields (attributes raw)).
Proof.
  unfold FormBody.attributes. rewrite !field_of_flat, !kept_of_flat, kept_array_of_flat.
  reflexivity.
Qed.

Lemma or_else_of_flat (v d : FormValue) :
  FormBody.or_else (FormBody.of_flat v) (FormBody.of_flat d) =
  FormBody.of_flat (or_else v d).
Proof.
  unfold FormBody.or_else, or_else. rewrite truthy_of_flat.
  destruct (truthy v); reflexivity.
Qed.

Lemma attrPhrases_of_flat (attrs : Fields) :
  FormBody.attrPhrases (FormBody.of_flat_fields attrs) =
  Some (FormBody.of_flat_fields (attrPhrases attrs)).
Proof.
  unfold FormBody.attrPhrases.
  rewrite !field_of_flat, !mergeChoice_of_flat, formatExpression_of_flat.
  change (FormBody.BText []) with (FormBody.of_flat (VText [])).
  rewrite or_else_of_flat. reflexivity.
Qed.

Lemma poseText_of_flat (attrs : Fields) :
  FormBody.poseText (FormBody.of_flat_fields attrs) = Some (poseText attrs).
Proof.
  unfold FormBody.poseText, poseText. rewrite !field_of_flat.
  change (FormBody.BText []) with (FormBody.of_flat (VText [])).
  rewrite !or_else_of_flat, !render_of_flat. reflexivity.
Qed.

Lemma is_null_of_flat (v : FormValue) :
  FormBody.is_null (FormBody.of_flat v) = is_null v.
Proof. destruct v; reflexivity. Qed.

Lemma changedFields_of_flat (attrs : Fields) :
  FormBody.changedFields (FormBody.of_flat_fields attrs) = changedFields attrs.
Proof.
  unfold FormBody.changedFields, changedFields, FormBody.of_flat_fields.
  rewrite map_map. cbn [fst].
  apply filter_ext. intros k.
  change (List.map (fun kv => (fst kv, FormBody.of_flat (snd kv))) attrs) with
    (FormBody.of_flat_fields attrs).
  rewrite field_of_flat, is_null_of_flat. reflexivity.
Qed.

Lemma lower_of_flat (v : FormValue) :
  FormBody.lower_of toLowerCase (FormBody.of_flat v) = lower_of toLowerCase v \/
  (exists l, v = VList l).
Proof. destruct v; eauto. Qed.

Lemma genMode_of_flat (raw : Fields) :
  FormBody.is_model_reference_mode (FormBody.genMode (FormBody.of_flat_fields raw)) =
  is_model_reference_mode (genMode raw).
Proof.
  unfold FormBody.genMode, genMode. rewrite field_of_flat.
  change (FormBody.BText (lit "POSE_BASED")) with (FormBody.of_flat (VText (lit "POSE_BASED"))).
  rewrite or_else_of_flat.
  destruct (or_else _ _); reflexivity.
Qed.

(** X17: on a body whose fields are texts or lists of texts, no [String],
    [join] or [present] throws, and the handler does up to the prompt
    assembly what the model of such bodies says: the same early answer or
    the same detected values. *)
Theorem analyse_of_flat (req : Request) :
  FormBody.analyse toLowerCase (FormBody.of_flat_request req) =
    match analyse toLowerCase req with
    | inl r => inl r
    | inr a => inr (FormBody.of_flat_analysis a)
    end.
Proof.
  unfold FormBody.analyse, analyse, validate.
  cbn [FormBody.of_flat_request FormBody.body FormBody.referenceImage
       FormBody.referenceImage2].
  rewrite genMode_of_flat.
  destruct (is_model_reference_mode _ && negb (is_some (referenceImage2 req)));
    [reflexivity |].
  destruct (negb (is_some (referenceImage req))); [reflexivity |].
  rewrite attributes_of_flat, poseText_of_flat.
  destruct (isBackPose toLowerCase _ && negb (is_some (referenceImage2 req)));
    [reflexivity |].
  rewrite attrPhrases_of_flat, !field_of_flat, changedFields_of_flat.
  change (FormBody.BText default_modelType) with (FormBody.of_flat (VText default_modelType)).
  change (FormBody.BText []) with (FormBody.of_flat (VText [])).
  rewrite !or_else_of_flat.
  destruct (or_else (field "modelType" _) _) as [| | mt | mt];
    cbn [FormBody.of_flat FormBody.lower_of lower_of]; try reflexivity.
  destruct (or_else (field "location" _) _) as [| | loc | loc].
  - cbn [FormBody.of_flat FormBody.lower_of lower_of]. reflexivity.
  - cbn [FormBody.of_flat FormBody.lower_of lower_of]. reflexivity.
  - cbn [FormBody.of_flat FormBody.lower_of lower_of]. 
    unfold FormBody.of_flat_analysis.
    cbn [an_attributes an_changedFields an_poseText an_attrPhrases selectedModelType
         isEuropeanModel isAfricanModel isNonIndianModel isLivingRoom indoorNoCeiling].
    reflexivity.
  - cbn [FormBody.of_flat FormBody.lower_of lower_of]. reflexivity.
Qed.

End FlatBodies.
